(** * ZCurve: positions on a Z-order curve (zcurve.py)

    A shallow embedding of the class [ZCurve] of [zcurve.py] and the
    properties of its constructors, coordinate extraction, quadtree
    navigation, neighbour computation, addition and serialisation.

    Python integers are unbounded, so a position is a [Z] and the bit
    operators are those of [Z] (two's complement on negative numbers, as in
    Python).  A depth is a [nat]: with a negative depth [4 ** depth] is a
    float, which is outside this model.  A Python exception is an explicit
    [Raise] outcome.  [fromLatLon] (which only wraps the external geocoder)
    and [region] (floating-point arithmetic) are not modelled. *)

From Stdlib Require Import Ascii String DecimalString.
From Stdlib Require Import ZArith List Bool Lia Btauto.
Import ListNotations.
Local Open Scope Z_scope.

(** ** Python primitives used by the class *)

Inductive exn : Type :=
| ValueError
| IndexError
| RecursionError.

Inductive result (A : Type) : Type :=
| Ok (a : A)
| Raise (e : exn).

Arguments Ok {A} a.
Arguments Raise {A} e.

Definition bind {A B : Type} (r : result A) (f : A -> result B) : result B :=
  match r with
  | Ok a => f a
  | Raise e => Raise e
  end.

Notation "x <- r ;; k" := (bind r (fun x => k))
  (at level 61, r at next level, right associativity).

(** A list comprehension whose body may raise: the first exception wins. *)
Fixpoint mapM {A B : Type} (f : A -> result B) (l : list A) : result (list B) :=
  match l with
  | [] => Ok []
  | a :: l' => b <- f a ;; bs <- mapM f l' ;; Ok (b :: bs)
  end.

(** [range(lo, hi)] *)
Definition range (lo hi : Z) : list Z :=
  map (fun k => lo + Z.of_nat k) (seq 0 (Z.to_nat (hi - lo))).

(** [l[0]] *)
Definition first {A : Type} (l : list A) : result A :=
  match l with
  | [] => Raise IndexError
  | a :: _ => Ok a
  end.

(** [str(n)] for an integer [n]. *)
Definition str (n : Z) : list ascii :=
  list_ascii_of_string (NilZero.string_of_int (Z.to_int n)).

(** [int(s, base=2)] on the strings made of the characters 0 and 1, which
    are the only ones [__str__] produces.  The empty string raises
    [ValueError] as in Python.  On other characters Python has more cases
    (sign, blanks, underscores, a 0b prefix); no statement below depends on
    them and they are rendered as [ValueError] too. *)
Fixpoint int2_digits (acc : Z) (s : list ascii) : result Z :=
  match s with
  | [] => Ok acc
  | c :: s' =>
      if Ascii.eqb c "0" then int2_digits (2 * acc) s'
      else if Ascii.eqb c "1" then int2_digits (2 * acc + 1) s'
      else Raise ValueError
  end.

Definition int2 (s : list ascii) : result Z :=
  match s with
  | [] => Raise ValueError
  | _ => int2_digits 0 s
  end.

(** Modelled from the spec: the module [direction] is not part of the
    sources; the spec describes [D] as a four-valued compass-direction
    enumeration used only as the keys of the result of [neighbours]. *)
Inductive D : Type := NORTH | SOUTH | WEST | EAST.

(** The reciprocal direction, in the words of the spec's testable
    properties ([opposite(dir)]). *)
Definition opposite (d : D) : D :=
  match d with
  | NORTH => SOUTH
  | SOUTH => NORTH
  | WEST => EAST
  | EAST => WEST
  end.

(** ** The class *)

Module ZCurve.

Record t : Type := Build { z : Z; depth : nat; halfsplit : bool }.

Definition EVENBITS : Z := 0xaaaaaaaa.
Definition ODDBITS : Z := 0x55555555.

(** [__init__] on an integer [z]; the shorthand on a [str] argument is
    [fromBitstring] below. *)
Definition init (z : Z) (depth : nat) (halfsplit : bool) : result t :=
  if z >? 4 ^ Z.of_nat depth - 1 then Raise ValueError
  else Ok (Build z depth halfsplit).

(** The loop body of [fromXY]:
    [z |= (x & 1 << i) << i | (y & 1 << i) << (i + 1)]. *)
Definition interleave_step (x y z i : Z) : Z :=
  Z.lor z (Z.lor (Z.shiftl (Z.land x (Z.shiftl 1 i)) i)
                 (Z.shiftl (Z.land y (Z.shiftl 1 i)) (i + 1))).

Definition fromXY (xy : Z * Z) (depth : nat) : result t :=
  let '(x, y) := xy in
  if (x >=? 2 ^ Z.of_nat depth) || (y >=? 2 ^ Z.of_nat depth)
  then Raise ValueError
  else
    let z := fold_left (interleave_step x y) (range 0 32) 0 in
    init z depth false.

Definition fromBitstring (bitstring : list ascii) : result t :=
  let halfsplit := negb (Z.of_nat (List.length bitstring) mod 2 =? 0) in
  let bitstring := if halfsplit then bitstring ++ ["0"%char] else bitstring in
  let depth := Nat.div (List.length bitstring) 2 in
  z <- int2 bitstring ;;
  init z depth halfsplit.

(** The loop body of [xy], on the pair of accumulators. *)
Definition deinterleave_step (z : Z) (acc : Z * Z) (i : Z) : Z * Z :=
  let '(x, y) := acc in
  if i mod 2 =? 0
  then (Z.lor x (Z.shiftr (Z.land z (Z.shiftl 1 i)) (i / 2)), y)
  else (x, Z.lor y (Z.shiftr (Z.land z (Z.shiftl 1 i)) (i / 2 + 1))).

Definition xy (self : t) : Z * Z :=
  fold_left (deinterleave_step (z self)) (range 0 32) (0, 0).

Definition debruijn (self : t) : Z * Z :=
  (Z.land (z self) ODDBITS, Z.land (z self) EVENBITS).

(** The four entries of the dictionary built by [neighbours], in the
    order in which the source evaluates them. *)
Definition north (self : t) : result t :=
  init ((Z.lor (Z.land (Z.land (z self) EVENBITS - 1) EVENBITS)
               (Z.land (z self) ODDBITS)) mod 4 ^ Z.of_nat (depth self))
       (depth self) false.

Definition south (self : t) : result t :=
  init ((Z.lor (Z.land (Z.lor (z self) ODDBITS + 1) EVENBITS)
               (Z.land (z self) ODDBITS)) mod 4 ^ Z.of_nat (depth self))
       (depth self) false.

Definition west (self : t) : result t :=
  init ((Z.lor (Z.land (Z.land (z self) ODDBITS - 1) ODDBITS)
               (Z.land (z self) EVENBITS)) mod 4 ^ Z.of_nat (depth self))
       (depth self) false.

Definition east (self : t) : result t :=
  init ((Z.lor (Z.land (Z.lor (z self) EVENBITS + 1) ODDBITS)
               (Z.land (z self) EVENBITS)) mod 4 ^ Z.of_nat (depth self))
       (depth self) false.

(** [neighbours]: the dictionary as a function of its key. *)
Definition neighbours (self : t) : result (D -> t) :=
  n <- north self ;;
  s <- south self ;;
  w <- west self ;;
  e <- east self ;;
  Ok (fun d => match d with
               | NORTH => n
               | SOUTH => s
               | WEST => w
               | EAST => e
               end).

Definition parent (self : t) (depthOffset : nat) : result t :=
  let z := Z.shiftr (z self) (2 * Z.of_nat depthOffset) in
  let depth := Z.to_nat (Z.max 0 (Z.of_nat (depth self) - Z.of_nat depthOffset)) in
  init z depth false.

Definition children (self : t) (depthOffset : nat) : result (list t) :=
  let zBase := Z.shiftl (z self) (2 * Z.of_nat depthOffset) in
  let numChildren := 4 ^ Z.of_nat depthOffset in
  mapM (fun z => init z (depth self + depthOffset) false)
       (range zBase (zBase + numChildren)).

(** [__str__] *)
Definition toString (self : t) : list ascii :=
  let skipLsb := if halfsplit self then 1 else 0 in
  let res :=
    fold_left (fun res i =>
                 let bit := Z.shiftr (Z.land (z self) (Z.shiftl 1 i)) i in
                 res ++ str bit)
              (range skipLsb (Z.of_nat (depth self) * 2)) [] in
  rev res.

(** The body of [__add__] once both depths agree. *)
Definition add_same_depth (self other : t) : result t :=
  let z :=
    (Z.lor (Z.land (Z.lor (z self) EVENBITS + Z.land (z other) ODDBITS) ODDBITS)
           (Z.land (Z.lor (z self) ODDBITS + Z.land (z other) EVENBITS) EVENBITS))
    mod 4 ^ Z.of_nat (depth self) in
  init z (depth self) false.

(** [__add__].  The source calls itself after aligning the depths; the
    fuel bounds the depth of that recursion, as the interpreter's
    recursion limit does.  Both operands are [ZCurve] values, so
    [ensureSameType] never raises. *)
Fixpoint add_fuel (fuel : nat) (self other : t) : result t :=
  match fuel with
  | O => Raise RecursionError
  | S fuel' =>
      if negb (Nat.eqb (depth other) (depth self)) then
        let deeper := if Nat.ltb (depth self) (depth other) then other else self in
        let higher := if Nat.ltb (depth self) (depth other) then self else other in
        cs <- children higher (depth deeper - depth higher) ;;
        c <- first cs ;;
        add_fuel fuel' deeper c
      else add_same_depth self other
  end.

Definition recursion_limit : nat := 1000.

Definition add (self other : t) : result t := add_fuel recursion_limit self other.

(** [__eq__] *)
Definition equals (self other : t) : bool :=
  (z self =? z other) && Nat.eqb (depth self) (depth other)
  && Bool.eqb (halfsplit self) (halfsplit other).

(** [__contains__] *)
Definition contains (self other : t) : result bool :=
  if Nat.ltb (depth other) (depth self) then Ok false
  else if Nat.ltb (depth self) (depth other) then
    p <- parent other (depth other - depth self) ;; Ok (equals self p)
  else Ok (equals self other).

(** [__lt__], [__gt__], [__le__], [__ge__] compare the covered area. *)
Definition lt (self other : t) : bool := Nat.ltb (depth other) (depth self).
Definition gt (self other : t) : bool := Nat.ltb (depth self) (depth other).
Definition le (self other : t) : bool := Nat.leb (depth self) (depth other).
Definition ge (self other : t) : bool := Nat.leb (depth other) (depth self).

End ZCurve.

(** ** Well-formedness *)

(** What [__init__] enforces on every instance. *)
Definition constructed (c : ZCurve.t) : Prop :=
  ZCurve.z c <= 4 ^ Z.of_nat (ZCurve.depth c) - 1.

(** The representability invariant of the data model. *)
Definition well_formed (c : ZCurve.t) : Prop :=
  0 <= ZCurve.z c < 4 ^ Z.of_nat (ZCurve.depth c).

(** ** Notions used in the statements and proofs *)

(** The position [fromXY] builds before it calls the constructor. *)
Definition interleave (x y : Z) : Z :=
  fold_left (ZCurve.interleave_step x y) (range 0 32) 0.

(** The cells [children] builds, when none of the constructions raises. *)
Definition child_cells (c : ZCurve.t) (k : nat) : list ZCurve.t :=
  map (fun z' => ZCurve.Build z' (ZCurve.depth c + k) false)
      (range (Z.shiftl (ZCurve.z c) (2 * Z.of_nat k))
             (Z.shiftl (ZCurve.z c) (2 * Z.of_nat k) + 4 ^ Z.of_nat k)).

(** The operand at the greater depth and the one at the lesser depth, as
    [__add__] names them. *)
Definition deeper (a b : ZCurve.t) : ZCurve.t :=
  if Nat.ltb (ZCurve.depth a) (ZCurve.depth b) then b else a.

Definition higher (a b : ZCurve.t) : ZCurve.t :=
  if Nat.ltb (ZCurve.depth a) (ZCurve.depth b) then a else b.

(** The character of one bit, and the value of a list of bits given least
    significant bit first. *)
Definition bitchar (b : bool) : ascii := if b then "1"%char else "0"%char.

Definition lsb_value (bs : list bool) : Z :=
  fold_right (fun b v => Z.b2z b + 2 * v) 0 bs.

(** The masked decrement and increment of the part [a] of a position that
    lies on the axis [K], the other axis being [L]. *)
Definition axis_down (K a : Z) : Z := Z.land (a - 1) K.
Definition axis_up (K L a : Z) : Z := Z.land (Z.lor a L + 1) K.

(** The positions computed by [neighbours] for a step down or up the axis
    [K] at depth [d]. *)
Definition step_down (K L z0 : Z) (d : nat) : Z :=
  (Z.lor (Z.land (Z.land z0 K - 1) K) (Z.land z0 L)) mod 4 ^ Z.of_nat d.

Definition step_up (K L z0 : Z) (d : nat) : Z :=
  (Z.lor (Z.land (Z.lor z0 L + 1) K) (Z.land z0 L)) mod 4 ^ Z.of_nat d.

(** All the numbers whose set bits are among [bits]. *)
Fixpoint submasks (bits : list Z) : list Z :=
  match bits with
  | [] => [0]
  | p :: ps =>
      let r := submasks ps in
      let b := Z.shiftl 1 p in
      r ++ map (fun m => Z.lor m b) r
  end.

(** The bit positions of the axis [K] that a position of depth [d] uses. *)
Definition axis_bits (K : Z) (d : nat) : list Z :=
  filter (fun n => Z.testbit K n && (n <? 2 * Z.of_nat d)) (range 0 32).

(** Stepping down then up, and up then down, on every axis part of depth
    [d], decided by enumeration.  Reducing modulo [4^d] is written as
    masking with [2d] ones. *)
Definition axis_inverse_check (K L : Z) (d : nat) : bool :=
  let m := Z.ones (2 * Z.of_nat d) in
  forallb (fun a =>
             (Z.land (axis_up K L (Z.land (axis_down K a) m)) m =? a)
             && (Z.land (axis_down K (Z.land (axis_up K L a) m)) m =? a))
          (submasks (axis_bits K d)).

(** The position [neighbours] computes in each direction. *)
Definition step (dir : D) (z0 : Z) (d : nat) : Z :=
  match dir with
  | NORTH => step_down ZCurve.EVENBITS ZCurve.ODDBITS z0 d
  | SOUTH => step_up ZCurve.EVENBITS ZCurve.ODDBITS z0 d
  | WEST => step_down ZCurve.ODDBITS ZCurve.EVENBITS z0 d
  | EAST => step_up ZCurve.ODDBITS ZCurve.EVENBITS z0 d
  end.

(** The [w] low bits of [x] moved to the even bit positions, and the mask
    of the [w] lowest even bit positions: [odd_mask 16] is [ODDBITS]. *)
Fixpoint spread (w : nat) (x : Z) : Z :=
  match w with
  | O => 0
  | S w' => 4 * spread w' (x / 2) + x mod 2
  end.

Fixpoint odd_mask (w : nat) : Z :=
  match w with
  | O => 0
  | S w' => 4 * odd_mask w' + 1
  end.

(** Linear goals with divisions and remainders by constants. *)
Ltac divmod := Z.div_mod_to_equations; lia.

(** ** Basic facts on the Python primitives *)

Lemma In_range (lo hi i : Z) : In i (range lo hi) <-> lo <= i < hi.
Proof.
  unfold range. rewrite in_map_iff. split.
  - intros [k [<- Hk]]. apply in_seq in Hk. lia.
  - intros H. exists (Z.to_nat (i - lo)). split; [lia|].
    apply in_seq. lia.
Qed.

Lemma range_length (lo hi : Z) : List.length (range lo hi) = Z.to_nat (hi - lo).
Proof. unfold range. now rewrite length_map, length_seq. Qed.

Lemma range_nil (lo hi : Z) : hi <= lo -> range lo hi = [].
Proof.
  intros H. unfold range. replace (Z.to_nat (hi - lo)) with 0%nat by lia.
  reflexivity.
Qed.

Lemma range_cons (lo hi : Z) : lo < hi -> range lo hi = lo :: range (lo + 1) hi.
Proof.
  intros H. unfold range.
  replace (Z.to_nat (hi - lo)) with (S (Z.to_nat (hi - (lo + 1)))) by lia.
  cbn [seq map]. f_equal; [lia|].
  rewrite <- seq_shift, map_map. apply map_ext. intros k. lia.
Qed.

Lemma range_nth_error (lo hi : Z) (i : nat) :
  (i < Z.to_nat (hi - lo))%nat -> nth_error (range lo hi) i = Some (lo + Z.of_nat i).
Proof.
  intros H. unfold range. rewrite nth_error_map.
  rewrite nth_error_nth' with (d := 0%nat) by (rewrite length_seq; lia).
  rewrite seq_nth by lia. reflexivity.
Qed.

Lemma existsb_range (P : Z -> bool) (lo hi : Z) :
  existsb P (range lo hi) = true <-> exists i, lo <= i < hi /\ P i = true.
Proof.
  rewrite existsb_exists. split; intros [i [H1 H2]]; exists i; split; auto;
    now apply In_range.
Qed.

Lemma pow4_pow2 (d : nat) : 4 ^ Z.of_nat d = 2 ^ (2 * Z.of_nat d).
Proof. rewrite Z.pow_mul_r by lia. reflexivity. Qed.

Lemma pow4_pos (d : nat) : 0 < 4 ^ Z.of_nat d.
Proof. apply Z.pow_pos_nonneg; lia. Qed.

Lemma testbit_above_pow2 (a k n : Z) :
  0 <= a < 2 ^ k -> k <= n -> Z.testbit a n = false.
Proof.
  intros Ha Hn. destruct (Z.ltb_spec k 0) as [Hk|Hk].
  - rewrite Z.pow_neg_r in Ha by lia. lia.
  - rewrite <- (Z.mod_small a (2 ^ k)) by lia.
    apply Z.mod_pow2_bits_high. lia.
Qed.

Lemma bound_of_high_bits (a k : Z) :
  0 <= a -> 0 <= k -> (forall n, k <= n -> Z.testbit a n = false) -> a < 2 ^ k.
Proof.
  intros Ha Hk H.
  assert (E : a = a mod 2 ^ k).
  { apply Z.bits_inj'. intros n Hn. rewrite Z.testbit_mod_pow2 by lia.
    destruct (Z.ltb_spec n k); [reflexivity|]. now rewrite H by lia. }
  rewrite E. apply Z.mod_pos_bound. apply Z.pow_pos_nonneg; lia.
Qed.

(** The two shapes of single-bit extraction the loops use. *)
Lemma select_shiftl_bit (x i k n : Z) :
  0 <= i -> 0 <= k -> 0 <= n ->
  Z.testbit (Z.shiftl (Z.land x (Z.shiftl 1 i)) k) n = (n =? i + k) && Z.testbit x i.
Proof.
  intros Hi Hk Hn. rewrite Z.shiftl_spec, Z.land_spec, Z.shiftl_1_l by lia.
  destruct (Z.eqb_spec n (i + k)) as [->|Hne].
  - replace (i + k - k) with i by lia. rewrite Z.pow2_bits_true by lia.
    now rewrite andb_true_r.
  - rewrite Z.pow2_bits_false by lia. now rewrite andb_false_r.
Qed.

Lemma select_shiftr_bit (x i k n : Z) :
  0 <= i -> 0 <= k -> 0 <= n ->
  Z.testbit (Z.shiftr (Z.land x (Z.shiftl 1 i)) k) n = (n + k =? i) && Z.testbit x i.
Proof.
  intros Hi Hk Hn. rewrite Z.shiftr_spec, Z.land_spec, Z.shiftl_1_l by lia.
  destruct (Z.eqb_spec (n + k) i) as [->|Hne].
  - rewrite Z.pow2_bits_true by lia. now rewrite andb_true_r.
  - rewrite Z.pow2_bits_false by lia. now rewrite andb_false_r.
Qed.

(** ** The constructor *)

Lemma init_ok (z : Z) (d : nat) (hs : bool) :
  z <= 4 ^ Z.of_nat d - 1 -> ZCurve.init z d hs = Ok (ZCurve.Build z d hs).
Proof.
  intros H. unfold ZCurve.init.
  destruct (Z.gtb_spec z (4 ^ Z.of_nat d - 1)); [lia|reflexivity].
Qed.

Lemma init_raise (z : Z) (d : nat) (hs : bool) :
  z > 4 ^ Z.of_nat d - 1 -> ZCurve.init z d hs = Raise ValueError.
Proof.
  intros H. unfold ZCurve.init.
  destruct (Z.gtb_spec z (4 ^ Z.of_nat d - 1)); [reflexivity|lia].
Qed.

Lemma init_mod (a : Z) (d : nat) (hs : bool) :
  ZCurve.init (a mod 4 ^ Z.of_nat d) d hs = Ok (ZCurve.Build (a mod 4 ^ Z.of_nat d) d hs).
Proof.
  apply init_ok. pose proof (Z.mod_pos_bound a _ (pow4_pos d)). lia.
Qed.

Lemma init_inv (z : Z) (d : nat) (hs : bool) (c : ZCurve.t) :
  ZCurve.init z d hs = Ok c -> c = ZCurve.Build z d hs /\ constructed c.
Proof.
  unfold ZCurve.init, constructed.
  destruct (Z.gtb_spec z (4 ^ Z.of_nat d - 1)); [discriminate|].
  intros [= <-]. cbn. split; [reflexivity|lia].
Qed.

(** ** Interleaving and de-interleaving *)

Lemma interleave_fold_bits (x y : Z) (l : list Z) (z0 n : Z) :
  0 <= n -> Forall (fun i => 0 <= i) l ->
  Z.testbit (fold_left (ZCurve.interleave_step x y) l z0) n =
  Z.testbit z0 n
  || existsb (fun i => (n =? 2 * i) && Z.testbit x i
                       || (n =? 2 * i + 1) && Z.testbit y i) l.
Proof.
  intros Hn Hl. revert z0. induction Hl as [|i l Hi Hl IH]; intros z0; cbn.
  - now rewrite orb_false_r.
  - rewrite IH. unfold ZCurve.interleave_step.
    rewrite !Z.lor_spec, !select_shiftl_bit by lia.
    replace (i + i) with (2 * i) by lia.
    replace (i + (i + 1)) with (2 * i + 1) by lia.
    now rewrite !orb_assoc.
Qed.

Lemma interleave_testbit (x y n : Z) :
  0 <= n ->
  Z.testbit (interleave x y) n =
  (n <? 64) && (if n mod 2 =? 0 then Z.testbit x (n / 2) else Z.testbit y (n / 2)).
Proof.
  intros Hn. unfold interleave.
  rewrite interleave_fold_bits; auto.
  2:{ apply Forall_forall. intros i Hi. apply In_range in Hi. lia. }
  rewrite Z.bits_0. cbn [orb].
  apply eq_true_iff_eq. rewrite existsb_range, andb_true_iff, Z.ltb_lt. split.
  - intros [i [Hi H]]. apply orb_true_iff in H.
    destruct H as [H|H]; apply andb_true_iff in H; destruct H as [H1 H2];
      apply Z.eqb_eq in H1; subst n; split; try lia.
    + replace (2 * i mod 2) with 0 by divmod.
      replace (2 * i / 2) with i by divmod. exact H2.
    + replace ((2 * i + 1) mod 2) with 1 by divmod.
      replace ((2 * i + 1) / 2) with i by divmod. exact H2.
  - intros [H64 H]. exists (n / 2).
    pose proof (Z.div_mod n 2 ltac:(lia)) as Hdm.
    pose proof (Z.mod_pos_bound n 2 ltac:(lia)) as Hmb.
    split; [lia|]. apply orb_true_iff.
    destruct (Z.eqb_spec (n mod 2) 0) as [E|E].
    + left. rewrite H, andb_true_r. apply Z.eqb_eq. lia.
    + right. rewrite H, andb_true_r. apply Z.eqb_eq. lia.
Qed.

Lemma interleave_step_nonneg (x y z0 i : Z) :
  0 <= x -> 0 <= y -> 0 <= z0 -> 0 <= ZCurve.interleave_step x y z0 i.
Proof.
  intros Hx Hy Hz. unfold ZCurve.interleave_step.
  repeat (apply Z.lor_nonneg; split); try assumption;
    apply Z.shiftl_nonneg; apply Z.land_nonneg; now left.
Qed.

Lemma interleave_nonneg (x y : Z) : 0 <= x -> 0 <= y -> 0 <= interleave x y.
Proof.
  intros Hx Hy. unfold interleave.
  assert (G : forall l z0, 0 <= z0 -> 0 <= fold_left (ZCurve.interleave_step x y) l z0).
  { induction l as [|i l IH]; intros z0 Hz; cbn; [exact Hz|].
    apply IH. now apply interleave_step_nonneg. }
  apply G. lia.
Qed.

Lemma interleave_bound (x y : Z) (d : nat) :
  0 <= x < 2 ^ Z.of_nat d -> 0 <= y < 2 ^ Z.of_nat d ->
  0 <= interleave x y < 4 ^ Z.of_nat d.
Proof.
  intros Hx Hy. split; [apply interleave_nonneg; lia|].
  rewrite pow4_pow2. apply bound_of_high_bits; [apply interleave_nonneg; lia|lia|].
  intros n Hn. rewrite interleave_testbit by lia.
  pose proof (Z.div_mod n 2 ltac:(lia)) as Hdm.
  pose proof (Z.mod_pos_bound n 2 ltac:(lia)) as Hmb.
  rewrite (testbit_above_pow2 x (Z.of_nat d)), (testbit_above_pow2 y (Z.of_nat d)) by lia.
  destruct (n mod 2 =? 0); apply andb_false_r.
Qed.

Lemma fromXY_unfold (x y : Z) (d : nat) :
  x < 2 ^ Z.of_nat d -> y < 2 ^ Z.of_nat d ->
  ZCurve.fromXY (x, y) d = ZCurve.init (interleave x y) d false.
Proof.
  intros Hx Hy. unfold ZCurve.fromXY.
  destruct (Z.geb_spec x (2 ^ Z.of_nat d)); [lia|].
  destruct (Z.geb_spec y (2 ^ Z.of_nat d)); [lia|].
  cbn [orb]. unfold interleave. reflexivity.
Qed.

Lemma deinterleave_fold_bits (z0 : Z) (l : list Z) (acc : Z * Z) (n : Z) :
  0 <= n -> Forall (fun i => 0 <= i) l ->
  Z.testbit (fst (fold_left (ZCurve.deinterleave_step z0) l acc)) n =
    Z.testbit (fst acc) n
    || existsb (fun i => (i mod 2 =? 0) && (n + i / 2 =? i) && Z.testbit z0 i) l
  /\
  Z.testbit (snd (fold_left (ZCurve.deinterleave_step z0) l acc)) n =
    Z.testbit (snd acc) n
    || existsb (fun i => negb (i mod 2 =? 0) && (n + (i / 2 + 1) =? i)
                         && Z.testbit z0 i) l.
Proof.
  intros Hn Hl. revert acc.
  induction Hl as [|i l Hi Hl IH]; intros [x y]; cbn [fold_left existsb].
  - now rewrite !orb_false_r.
  - destruct (IH (ZCurve.deinterleave_step z0 (x, y) i)) as [IH1 IH2].
    rewrite IH1, IH2. clear IH IH1 IH2. unfold ZCurve.deinterleave_step.
    assert (0 <= i / 2) by (apply Z.div_pos; lia).
    destruct (i mod 2 =? 0); cbn [fst snd negb andb orb];
      rewrite ?Z.lor_spec, ?select_shiftr_bit by lia;
      split; now rewrite ?orb_assoc.
Qed.

Lemma xy_testbit (c : ZCurve.t) (n : Z) :
  0 <= n ->
  Z.testbit (fst (ZCurve.xy c)) n = (n <? 16) && Z.testbit (ZCurve.z c) (2 * n) /\
  Z.testbit (snd (ZCurve.xy c)) n = (n <? 16) && Z.testbit (ZCurve.z c) (2 * n + 1).
Proof.
  intros Hn. unfold ZCurve.xy.
  destruct (deinterleave_fold_bits (ZCurve.z c) (range 0 32) (0, 0) n Hn) as [H1 H2].
  { apply Forall_forall. intros i Hi. apply In_range in Hi. lia. }
  rewrite H1, H2. cbn [fst snd]. rewrite Z.bits_0. cbn [orb].
  split; apply eq_true_iff_eq; rewrite existsb_range, andb_true_iff, Z.ltb_lt.
  - split.
    + intros [i [Hi H]]. rewrite !andb_true_iff, !Z.eqb_eq in H.
      destruct H as [[Hm He] Hb].
      replace (2 * n) with i by divmod. split; [divmod|exact Hb].
    + intros [H16 Hb]. exists (2 * n). split; [lia|].
      rewrite Hb, andb_true_r, andb_true_iff, !Z.eqb_eq. split; divmod.
  - split.
    + intros [i [Hi H]]. rewrite !andb_true_iff, negb_true_iff, Z.eqb_eq, Z.eqb_neq in H.
      destruct H as [[Hm He] Hb].
      replace (2 * n + 1) with i by divmod. split; [divmod|exact Hb].
    + intros [H16 Hb]. exists (2 * n + 1). split; [lia|].
      rewrite Hb, andb_true_r, andb_true_iff, negb_true_iff, Z.eqb_eq, Z.eqb_neq.
      split; divmod.
Qed.

Lemma xy_interleave (x y : Z) (d : nat) (hs : bool) :
  0 <= x < 2 ^ 16 -> 0 <= y < 2 ^ 16 ->
  ZCurve.xy (ZCurve.Build (interleave x y) d hs) = (x, y).
Proof.
  intros Hx Hy.
  rewrite (surjective_pairing (ZCurve.xy _)). f_equal.
  - apply Z.bits_inj'. intros n Hn.
    destruct (xy_testbit (ZCurve.Build (interleave x y) d hs) n Hn) as [-> _].
    cbn [ZCurve.z]. rewrite interleave_testbit by lia.
    replace (2 * n mod 2) with 0 by divmod.
    replace (2 * n / 2) with n by divmod.
    change (0 =? 0) with true. cbv iota.
    destruct (Z.ltb_spec n 16) as [H16|H16].
    + destruct (Z.ltb_spec (2 * n) 64); [reflexivity|lia].
    + rewrite (testbit_above_pow2 x 16 n) by lia. now rewrite andb_false_r.
  - apply Z.bits_inj'. intros n Hn.
    destruct (xy_testbit (ZCurve.Build (interleave x y) d hs) n Hn) as [_ ->].
    cbn [ZCurve.z]. rewrite interleave_testbit by lia.
    replace ((2 * n + 1) mod 2) with 1 by divmod.
    replace ((2 * n + 1) / 2) with n by divmod.
    change (1 =? 0) with false. cbv iota.
    destruct (Z.ltb_spec n 16) as [H16|H16].
    + destruct (Z.ltb_spec (2 * n + 1) 64); [reflexivity|lia].
    + rewrite (testbit_above_pow2 y 16 n) by lia. now rewrite andb_false_r.
Qed.

(** C1 (as amended).  For grid indices [0 <= x, y < 2^depth] that also fit
    in 16 bits, [fromXY((x, y), depth)] returns a cell and [xy()] of that
    cell is [(x, y)] again. *)
Theorem fromXY_xy_roundtrip (x y : Z) (d : nat) :
  0 <= x < 2 ^ Z.of_nat d -> 0 <= y < 2 ^ Z.of_nat d ->
  x < 2 ^ 16 -> y < 2 ^ 16 ->
  exists c, ZCurve.fromXY (x, y) d = Ok c /\ ZCurve.xy c = (x, y).
Proof.
  intros Hx Hy Hx16 Hy16.
  exists (ZCurve.Build (interleave x y) d false). split.
  - rewrite fromXY_unfold by lia. apply init_ok.
    pose proof (interleave_bound x y d Hx Hy). lia.
  - apply xy_interleave; lia.
Qed.

Lemma fromXY_xy_roundtrip_witness :
  exists c, ZCurve.fromXY (5, 3) 3 = Ok c /\ ZCurve.xy c = (5, 3).
Proof.
  apply (fromXY_xy_roundtrip 5 3 3); cbn; lia.
Defined.

(** C1 as stated fails beyond 16 bits: the index [x = 65536] is valid at
    depth 17, [fromXY] accepts it, and [xy] does not give it back, since
    its loop only visits the low 32 bits of the position.  It also fails
    below zero: [x = -1] is less than [2^1], and [fromXY] raises on it. *)
Lemma fromXY_xy_counterexample :
  (0 <= 65536 < 2 ^ Z.of_nat 17 /\ 0 <= 0 < 2 ^ Z.of_nat 17 /\
   ZCurve.fromXY (65536, 0) 17 = Ok (ZCurve.Build 4294967296 17 false) /\
   ZCurve.xy (ZCurve.Build 4294967296 17 false) = (0, 0) /\
   ~ (exists c, ZCurve.fromXY (65536, 0) 17 = Ok c /\ ZCurve.xy c = (65536, 0))) /\
  (-1 < 2 ^ Z.of_nat 1 /\ 0 < 2 ^ Z.of_nat 1 /\
   ~ (exists c, ZCurve.fromXY (-1, 0) 1 = Ok c /\ ZCurve.xy c = (-1, 0))).
Proof.
  assert (E : ZCurve.fromXY (65536, 0) 17 = Ok (ZCurve.Build 4294967296 17 false))
    by (vm_compute; reflexivity).
  assert (F : ZCurve.fromXY (-1, 0) 1 = Raise ValueError)
    by (vm_compute; reflexivity).
  split.
  - repeat split; try (cbn; lia); try exact E.
    intros [c [H1 H2]]. rewrite E in H1. injection H1 as <-.
    vm_compute in H2. discriminate.
  - repeat split; try (cbn; lia).
    intros [c [H1 _]]. rewrite F in H1. discriminate.
Qed.

(** ** Which constructions raise *)

Lemma fromXY_guard (x y : Z) (d : nat) :
  x >= 2 ^ Z.of_nat d \/ y >= 2 ^ Z.of_nat d ->
  ZCurve.fromXY (x, y) d = Raise ValueError.
Proof.
  intros H. unfold ZCurve.fromXY.
  destruct (Z.geb_spec x (2 ^ Z.of_nat d)); [reflexivity|].
  destruct (Z.geb_spec y (2 ^ Z.of_nat d)); [reflexivity|lia].
Qed.

Lemma fromXY_ok (x y : Z) (d : nat) :
  0 <= x < 2 ^ Z.of_nat d -> 0 <= y < 2 ^ Z.of_nat d ->
  ZCurve.fromXY (x, y) d = Ok (ZCurve.Build (interleave x y) d false).
Proof.
  intros Hx Hy. rewrite fromXY_unfold by lia. apply init_ok.
  pose proof (interleave_bound x y d Hx Hy). lia.
Qed.

(** C7 (as amended).  Raw construction raises exactly when
    [position > 4^depth - 1] and returns the cell otherwise; construction
    from grid indices [x, y >= 0] raises exactly when [x >= 2^depth] or
    [y >= 2^depth] and returns a cell otherwise. *)
Theorem constructors_raise_exactly (pos x y : Z) (d : nat) (hs : bool) :
  (ZCurve.init pos d hs = Raise ValueError <-> pos > 4 ^ Z.of_nat d - 1) /\
  (~ pos > 4 ^ Z.of_nat d - 1 -> ZCurve.init pos d hs = Ok (ZCurve.Build pos d hs)) /\
  (0 <= x -> 0 <= y ->
   (ZCurve.fromXY (x, y) d = Raise ValueError <->
    x >= 2 ^ Z.of_nat d \/ y >= 2 ^ Z.of_nat d) /\
   (~ (x >= 2 ^ Z.of_nat d \/ y >= 2 ^ Z.of_nat d) ->
    exists c, ZCurve.fromXY (x, y) d = Ok c)).
Proof.
  split; [split|split].
  - intros H. destruct (Z_gt_le_dec pos (4 ^ Z.of_nat d - 1)) as [G|G]; [exact G|].
    rewrite init_ok in H by exact G. discriminate.
  - apply init_raise.
  - intros H. apply init_ok. lia.
  - intros Hx Hy. split; [split|].
    + intros H.
      destruct (Z_lt_ge_dec x (2 ^ Z.of_nat d)) as [Gx|Gx]; [|now left].
      destruct (Z_lt_ge_dec y (2 ^ Z.of_nat d)) as [Gy|Gy]; [|now right].
      rewrite fromXY_ok in H by lia. discriminate.
    + apply fromXY_guard.
    + intros H. eexists. apply fromXY_ok; lia.
Qed.

Lemma constructors_raise_exactly_witness :
  (ZCurve.fromXY (2, 1) 1 = Raise ValueError <->
   2 >= 2 ^ Z.of_nat 1 \/ 1 >= 2 ^ Z.of_nat 1) /\
  (~ (2 >= 2 ^ Z.of_nat 1 \/ 1 >= 2 ^ Z.of_nat 1) ->
   exists c, ZCurve.fromXY (2, 1) 1 = Ok c).
Proof.
  apply (constructors_raise_exactly 4 2 1 1 false); lia.
Defined.

(** C7 as stated fails on a negative index: [fromXY((-1, 0), 1)] passes the
    guard on [x] and [y], interleaves the 32 low bits of [-1], and the raw
    constructor then raises on the resulting position. *)
Lemma fromXY_raise_counterexample :
  ZCurve.fromXY (-1, 0) 1 = Raise ValueError /\
  ~ (-1 >= 2 ^ Z.of_nat 1 \/ 0 >= 2 ^ Z.of_nat 1).
Proof.
  split; [vm_compute; reflexivity|cbn; lia].
Qed.

(** C9.  The raw constructor rejects a position only when it is strictly
    greater than [4^depth - 1]; every negative position is accepted at
    every depth, so the lower bound of the invariant is not enforced. *)
Theorem init_accepts_negative (pos : Z) (d : nat) (hs : bool) :
  (forall e, ZCurve.init pos d hs = Raise e -> pos > 4 ^ Z.of_nat d - 1) /\
  (pos < 0 ->
   ZCurve.init pos d hs = Ok (ZCurve.Build pos d hs) /\
   ~ well_formed (ZCurve.Build pos d hs)).
Proof.
  pose proof (pow4_pos d) as Hp. split.
  - intros e He. destruct (Z_gt_le_dec pos (4 ^ Z.of_nat d - 1)) as [G|G]; [exact G|].
    rewrite init_ok in He by exact G. discriminate.
  - intros H. split; [apply init_ok; lia|].
    unfold well_formed. cbn. lia.
Qed.

Lemma init_accepts_negative_witness :
  ZCurve.init (-7) 2 true = Ok (ZCurve.Build (-7) 2 true) /\
  ~ well_formed (ZCurve.Build (-7) 2 true).
Proof.
  apply (init_accepts_negative (-7) 2 true). lia.
Defined.

(** ** Quadtree navigation *)

Lemma mapM_ok {A B : Type} (f : A -> result B) (g : A -> B) (l : list A) :
  (forall a, In a l -> f a = Ok (g a)) -> mapM f l = Ok (map g l).
Proof.
  induction l as [|a l IH]; intros H; cbn; [reflexivity|].
  rewrite H by now left. cbn. rewrite IH by (intros; apply H; now right).
  reflexivity.
Qed.

Lemma mapM_inv {A B : Type} (f : A -> result B) (g : A -> B) (l : list A) (bs : list B) :
  (forall a b, f a = Ok b -> b = g a) -> mapM f l = Ok bs -> bs = map g l.
Proof.
  intros Hf. revert bs. induction l as [|a l IH]; intros bs; cbn.
  - now intros [= <-].
  - destruct (f a) as [b|e] eqn:Ea; cbn; [|discriminate].
    destruct (mapM f l) as [bs'|e]; cbn; [|discriminate].
    intros [= <-]. f_equal; [now apply Hf|now apply IH].
Qed.

Lemma shiftl_pow4 (a : Z) (k : nat) :
  Z.shiftl a (2 * Z.of_nat k) = a * 4 ^ Z.of_nat k.
Proof. rewrite Z.shiftl_mul_pow2 by lia. now rewrite pow4_pow2. Qed.

Lemma shiftr_pow4 (a : Z) (k : nat) :
  Z.shiftr a (2 * Z.of_nat k) = a / 4 ^ Z.of_nat k.
Proof. rewrite Z.shiftr_div_pow2 by lia. now rewrite pow4_pow2. Qed.

Lemma pow4_add (d k : nat) :
  4 ^ Z.of_nat (d + k) = 4 ^ Z.of_nat d * 4 ^ Z.of_nat k.
Proof. rewrite Nat2Z.inj_add. apply Z.pow_add_r; lia. Qed.

Lemma children_inv (c : ZCurve.t) (k : nat) (l : list ZCurve.t) :
  ZCurve.children c k = Ok l -> l = child_cells c k.
Proof.
  unfold ZCurve.children, child_cells. apply mapM_inv.
  intros a b H. now apply init_inv in H.
Qed.

Lemma children_ok (c : ZCurve.t) (k : nat) :
  constructed c -> ZCurve.children c k = Ok (child_cells c k).
Proof.
  intros Hc. unfold ZCurve.children, child_cells. apply mapM_ok.
  intros a Ha. apply In_range in Ha. apply init_ok.
  rewrite shiftl_pow4 in Ha. rewrite pow4_add.
  unfold constructed in Hc. pose proof (pow4_pos k). nia.
Qed.

Lemma child_cells_length (c : ZCurve.t) (k : nat) :
  Z.of_nat (List.length (child_cells c k)) = 4 ^ Z.of_nat k.
Proof.
  unfold child_cells. rewrite length_map, range_length.
  pose proof (pow4_pos k). lia.
Qed.

Lemma child_cells_nth (c : ZCurve.t) (k i : nat) :
  Z.of_nat i < 4 ^ Z.of_nat k ->
  nth_error (child_cells c k) i =
  Some (ZCurve.Build (Z.shiftl (ZCurve.z c) (2 * Z.of_nat k) + Z.of_nat i)
                     (ZCurve.depth c + k) false).
Proof.
  intros Hi. unfold child_cells.
  rewrite nth_error_map, range_nth_error by lia. reflexivity.
Qed.

Lemma child_cells_In (c : ZCurve.t) (k : nat) (d : ZCurve.t) :
  In d (child_cells c k) <->
  exists j, 0 <= j < 4 ^ Z.of_nat k /\
            d = ZCurve.Build (ZCurve.z c * 4 ^ Z.of_nat k + j) (ZCurve.depth c + k) false.
Proof.
  unfold child_cells. rewrite in_map_iff, shiftl_pow4. split.
  - intros [z' [<- Hz]]. apply In_range in Hz.
    exists (z' - ZCurve.z c * 4 ^ Z.of_nat k). split; [lia|]. f_equal. lia.
  - intros [j [Hj ->]]. eexists. split; [reflexivity|]. apply In_range. lia.
Qed.

Lemma child_cells_first (c : ZCurve.t) (k : nat) :
  first (child_cells c k) =
  Ok (ZCurve.Build (Z.shiftl (ZCurve.z c) (2 * Z.of_nat k)) (ZCurve.depth c + k) false).
Proof.
  unfold child_cells. pose proof (pow4_pos k).
  rewrite range_cons by lia. reflexivity.
Qed.

Lemma parent_ok (c : ZCurve.t) (k : nat) :
  constructed c ->
  ZCurve.parent c k =
  Ok (ZCurve.Build (ZCurve.z c / 4 ^ Z.of_nat k) (ZCurve.depth c - k) false).
Proof.
  intros Hc. unfold ZCurve.parent. rewrite shiftr_pow4.
  replace (Z.to_nat (Z.max 0 (Z.of_nat (ZCurve.depth c) - Z.of_nat k)))
    with (ZCurve.depth c - k)%nat by lia.
  apply init_ok. unfold constructed in Hc.
  pose proof (pow4_pos k) as Hk. pose proof (pow4_pos (ZCurve.depth c - k)) as Hd.
  assert (G : ZCurve.z c / 4 ^ Z.of_nat k < 4 ^ Z.of_nat (ZCurve.depth c - k)); [|lia].
  apply Z.div_lt_upper_bound; [lia|].
  destruct (Nat.le_gt_cases k (ZCurve.depth c)) as [L|L].
  - rewrite Z.mul_comm, <- pow4_add.
    replace (ZCurve.depth c - k + k)%nat with (ZCurve.depth c) by lia. lia.
  - replace (ZCurve.depth c - k)%nat with 0%nat by lia.
    change (4 ^ Z.of_nat 0) with 1. rewrite Z.mul_1_r.
    assert (4 ^ Z.of_nat (ZCurve.depth c) <= 4 ^ Z.of_nat k)
      by (apply Z.pow_le_mono_r; lia).
    lia.
Qed.

Lemma equals_true_iff (a b : ZCurve.t) : ZCurve.equals a b = true <-> a = b.
Proof.
  unfold ZCurve.equals. rewrite !andb_true_iff, Z.eqb_eq, Nat.eqb_eq, eqb_true_iff.
  destruct a, b; cbn. split.
  - intros [[-> ->] ->]. reflexivity.
  - intros [= -> -> ->]. auto.
Qed.

(** C3 (as amended).  For every cell [c] with [halfsplit = false] and
    every [k], [children(k)] returns exactly [4^k] cells, the [i]-th at
    position [(z << 2k) + i] and depth [depth + k] (so in ascending order of
    position), and every one of them has [parent(k)] equal to [c]. *)
Theorem children_parent (c : ZCurve.t) (k : nat) :
  constructed c -> ZCurve.halfsplit c = false ->
  exists l,
    ZCurve.children c k = Ok l /\
    Z.of_nat (List.length l) = 4 ^ Z.of_nat k /\
    (forall i, (i < List.length l)%nat ->
       nth_error l i =
       Some (ZCurve.Build (Z.shiftl (ZCurve.z c) (2 * Z.of_nat k) + Z.of_nat i)
                          (ZCurve.depth c + k) false)) /\
    (forall d, In d l ->
       exists p, ZCurve.parent d k = Ok p /\ ZCurve.equals p c = true).
Proof.
  intros Hc Hh. exists (child_cells c k).
  pose proof (child_cells_length c k) as Hlen.
  split; [now apply children_ok|]. split; [exact Hlen|]. split.
  - intros i Hi. apply child_cells_nth. lia.
  - intros d Hd. apply child_cells_In in Hd. destruct Hd as [j [Hj ->]].
    pose proof (pow4_pos k) as Hk.
    rewrite parent_ok.
    2:{ unfold constructed in *. cbn. rewrite pow4_add. nia. }
    cbn [ZCurve.z ZCurve.depth]. eexists. split; [reflexivity|].
    apply equals_true_iff. destruct c as [zc dc hc]. cbn in *. subst hc.
    f_equal; [|lia].
    symmetry. apply Z.div_unique with j; lia.
Qed.

Lemma children_parent_witness :
  exists l,
    ZCurve.children (ZCurve.Build 3 1 false) 1 = Ok l /\
    Z.of_nat (List.length l) = 4 ^ Z.of_nat 1 /\
    (forall i, (i < List.length l)%nat ->
       nth_error l i = Some (ZCurve.Build (Z.shiftl 3 (2 * Z.of_nat 1) + Z.of_nat i)
                                          (1 + 1) false)) /\
    (forall d, In d l ->
       exists p, ZCurve.parent d 1 = Ok p /\
                 ZCurve.equals p (ZCurve.Build 3 1 false) = true).
Proof.
  apply (children_parent (ZCurve.Build 3 1 false) 1).
  - unfold constructed. cbn. lia.
  - reflexivity.
Defined.

(** C3 as stated fails on a half-split cell: the children of
    [ZCurve(0, 1, True)] have the parent [ZCurve(0, 1, False)], which
    [__eq__] tells apart from the cell itself. *)
Lemma children_parent_counterexample :
  constructed (ZCurve.Build 0 1 true) /\
  exists l d p,
    ZCurve.children (ZCurve.Build 0 1 true) 1 = Ok l /\ In d l /\
    ZCurve.parent d 1 = Ok p /\ ZCurve.equals p (ZCurve.Build 0 1 true) = false.
Proof.
  split; [unfold constructed; cbn; lia|].
  eexists. exists (ZCurve.Build 0 2 false). eexists.
  split; [vm_compute; reflexivity|].
  split; [now left|]. split; vm_compute; reflexivity.
Qed.

(** ** Neighbours and addition always return *)

Lemma neighbours_ok (c : ZCurve.t) :
  exists n s w e,
    ZCurve.north c = Ok n /\ ZCurve.south c = Ok s /\
    ZCurve.west c = Ok w /\ ZCurve.east c = Ok e /\
    ZCurve.neighbours c =
    Ok (fun d => match d with NORTH => n | SOUTH => s | WEST => w | EAST => e end).
Proof.
  unfold ZCurve.neighbours, ZCurve.north, ZCurve.south, ZCurve.west, ZCurve.east.
  rewrite !init_mod. cbn [bind]. do 4 eexists. repeat split; reflexivity.
Qed.

Lemma add_same_depth_ok (a b : ZCurve.t) :
  exists r, ZCurve.add_same_depth a b = Ok r /\
            ZCurve.depth r = ZCurve.depth a /\ ZCurve.halfsplit r = false /\
            well_formed r.
Proof.
  unfold ZCurve.add_same_depth. rewrite init_mod. eexists. split; [reflexivity|].
  unfold well_formed. cbn. repeat split; apply Z.mod_pos_bound, pow4_pos.
Qed.

Lemma add_fuel_same (n : nat) (a b : ZCurve.t) :
  ZCurve.depth b = ZCurve.depth a ->
  ZCurve.add_fuel (S n) a b = ZCurve.add_same_depth a b.
Proof.
  intros H. cbn [ZCurve.add_fuel]. rewrite H, Nat.eqb_refl. reflexivity.
Qed.

Lemma deeper_higher_depth (a b : ZCurve.t) :
  ZCurve.depth b <> ZCurve.depth a ->
  (ZCurve.depth (higher a b) < ZCurve.depth (deeper a b))%nat.
Proof.
  intros H. unfold deeper, higher.
  destruct (Nat.ltb_spec (ZCurve.depth a) (ZCurve.depth b)); lia.
Qed.

Lemma add_fuel_diff (n : nat) (a b : ZCurve.t) :
  ZCurve.depth b <> ZCurve.depth a ->
  ZCurve.add_fuel (S (S n)) a b =
  (cs <- ZCurve.children (higher a b)
           (ZCurve.depth (deeper a b) - ZCurve.depth (higher a b)) ;;
   c <- first cs ;;
   ZCurve.add_same_depth (deeper a b) c).
Proof.
  intros H. pose proof (deeper_higher_depth a b H) as Hd.
  change (ZCurve.add_fuel (S (S n)) a b) with
    (if negb (Nat.eqb (ZCurve.depth b) (ZCurve.depth a)) then
       cs <- ZCurve.children (higher a b)
               (ZCurve.depth (deeper a b) - ZCurve.depth (higher a b)) ;;
       c <- first cs ;;
       ZCurve.add_fuel (S n) (deeper a b) c
     else ZCurve.add_same_depth a b).
  apply Nat.eqb_neq in H. rewrite H. cbn [negb].
  destruct (ZCurve.children (higher a b) _) as [cs|e] eqn:Ec; [|reflexivity].
  cbn [bind]. apply children_inv in Ec. subst cs.
  rewrite child_cells_first. cbn [bind].
  apply add_fuel_same. cbn [ZCurve.depth]. lia.
Qed.

Lemma add_unfold (a b : ZCurve.t) :
  ZCurve.add a b =
  if Nat.eqb (ZCurve.depth b) (ZCurve.depth a) then ZCurve.add_same_depth a b
  else (cs <- ZCurve.children (higher a b)
                (ZCurve.depth (deeper a b) - ZCurve.depth (higher a b)) ;;
        c <- first cs ;;
        ZCurve.add_same_depth (deeper a b) c).
Proof.
  unfold ZCurve.add.
  change ZCurve.recursion_limit with (S (S 998)).
  destruct (Nat.eqb_spec (ZCurve.depth b) (ZCurve.depth a)) as [E|E].
  - now apply add_fuel_same.
  - now apply add_fuel_diff.
Qed.

(** Two levels of recursion are all [__add__] ever uses. *)
Lemma add_fuel_enough (n : nat) (a b : ZCurve.t) :
  (2 <= n)%nat -> ZCurve.add_fuel n a b = ZCurve.add a b.
Proof.
  intros Hn. destruct n as [|[|n]]; try lia. rewrite add_unfold.
  destruct (Nat.eqb_spec (ZCurve.depth b) (ZCurve.depth a)) as [E|E].
  - now apply add_fuel_same.
  - now apply add_fuel_diff.
Qed.

Lemma add_diff_ok (a b : ZCurve.t) :
  ZCurve.depth b <> ZCurve.depth a -> constructed (higher a b) ->
  ZCurve.add a b =
  ZCurve.add_same_depth (deeper a b)
    (ZCurve.Build
       (Z.shiftl (ZCurve.z (higher a b))
                 (2 * Z.of_nat (ZCurve.depth (deeper a b) - ZCurve.depth (higher a b))))
       (ZCurve.depth (deeper a b)) false).
Proof.
  intros H Hc. pose proof (deeper_higher_depth a b H) as Hd.
  rewrite add_unfold. apply Nat.eqb_neq in H. rewrite H.
  rewrite children_ok by exact Hc. cbn [bind].
  rewrite child_cells_first. cbn [bind]. do 2 f_equal. lia.
Qed.

Lemma add_ok (a b : ZCurve.t) :
  constructed a -> constructed b ->
  exists r, ZCurve.add a b = Ok r /\ ZCurve.halfsplit r = false /\ well_formed r.
Proof.
  intros Ha Hb.
  destruct (Nat.eq_dec (ZCurve.depth b) (ZCurve.depth a)) as [E|E].
  - rewrite add_unfold, E, Nat.eqb_refl.
    destruct (add_same_depth_ok a b) as [r [H1 [_ [H2 H3]]]]. now exists r.
  - rewrite add_diff_ok; auto.
    2:{ unfold higher. now destruct (Nat.ltb _ _). }
    destruct (add_same_depth_ok (deeper a b)
                (ZCurve.Build
                   (Z.shiftl (ZCurve.z (higher a b))
                      (2 * Z.of_nat (ZCurve.depth (deeper a b) - ZCurve.depth (higher a b))))
                   (ZCurve.depth (deeper a b)) false))
      as [r [H1 [_ [H2 H3]]]].
    now exists r.
Qed.

(** ** Arithmetic on one axis of a 32-bit position

    [EVENBITS] and [ODDBITS] split the 32 low bits into the two axes.  The
    facts below hold for either mask as "own" axis [K] with the other one
    as [L]. *)

Section Axis.

Variables K L : Z.
Hypothesis KL_disjoint : Z.land K L = 0.
Hypothesis KL_cover : Z.lor K L = Z.ones 32.

Lemma axis_bits_disjoint (n : Z) : Z.testbit K n && Z.testbit L n = false.
Proof. rewrite <- Z.land_spec, KL_disjoint. apply Z.bits_0. Qed.

Lemma axis_bits_cover (n : Z) :
  0 <= n -> Z.testbit K n || Z.testbit L n = (n <? 32).
Proof.
  intros Hn. rewrite <- Z.lor_spec, KL_cover. apply Z.testbit_ones_nonneg; lia.
Qed.

Lemma axis_split (x : Z) : Z.land x K + Z.land x L = x mod 2 ^ 32.
Proof.
  rewrite <- Z.add_lor_land.
  replace (Z.land (Z.land x K) (Z.land x L)) with 0.
  - rewrite Z.add_0_r, <- Z.land_ones by lia.
    rewrite <- KL_cover. symmetry. apply Z.land_lor_distr_r.
  - symmetry. apply Z.bits_inj'. intros n Hn.
    rewrite !Z.land_spec, Z.bits_0.
    pose proof (axis_bits_disjoint n) as D.
    destruct (Z.testbit K n), (Z.testbit L n); try discriminate;
      now rewrite ?andb_false_r.
Qed.

Lemma axis_low (x : Z) : Z.land x L = Z.land (x mod 2 ^ 32) L.
Proof.
  apply Z.bits_inj'. intros n Hn.
  rewrite !Z.land_spec, Z.testbit_mod_pow2 by lia.
  pose proof (axis_bits_cover n Hn) as C.
  destruct (Z.ltb_spec n 32); [reflexivity|].
  apply orb_false_iff in C. destruct C as [_ ->]. now rewrite !andb_false_r.
Qed.

(** The sum [(a | K) + (b & L)], read on the axis [L], depends on [a] and
    [b] through [a & L] and [b & L] only. *)
Lemma axis_sum (a b : Z) :
  Z.land (Z.lor a K + Z.land b L) L = Z.land (Z.land a L + Z.land b L + K) L.
Proof.
  rewrite (axis_low (Z.lor a K + Z.land b L)).
  rewrite (axis_low (Z.land a L + Z.land b L + K)).
  f_equal.
  pose proof (Z.add_lor_land a K) as H1.
  pose proof (axis_split a) as H2.
  pose proof (Z.div_mod a (2 ^ 32) ltac:(lia)) as H3.
  replace (Z.lor a K + Z.land b L)
    with (Z.land a L + Z.land b L + K + (a / 2 ^ 32) * 2 ^ 32) by lia.
  apply Z.mod_add. lia.
Qed.

Lemma axis_sum_comm (a b : Z) :
  Z.land (Z.lor a K + Z.land b L) L = Z.land (Z.lor b K + Z.land a L) L.
Proof.
  rewrite !axis_sum. do 2 f_equal. lia.
Qed.

End Axis.

Lemma EVEN_ODD_disjoint : Z.land ZCurve.EVENBITS ZCurve.ODDBITS = 0.
Proof. reflexivity. Qed.

Lemma ODD_EVEN_disjoint : Z.land ZCurve.ODDBITS ZCurve.EVENBITS = 0.
Proof. reflexivity. Qed.

Lemma EVEN_ODD_cover : Z.lor ZCurve.EVENBITS ZCurve.ODDBITS = Z.ones 32.
Proof. reflexivity. Qed.

Lemma ODD_EVEN_cover : Z.lor ZCurve.ODDBITS ZCurve.EVENBITS = Z.ones 32.
Proof. reflexivity. Qed.

Lemma add_same_depth_comm (a b : ZCurve.t) :
  ZCurve.depth a = ZCurve.depth b ->
  ZCurve.add_same_depth a b = ZCurve.add_same_depth b a.
Proof.
  intros H. unfold ZCurve.add_same_depth. rewrite H.
  rewrite (axis_sum_comm _ _ EVEN_ODD_disjoint EVEN_ODD_cover (ZCurve.z a) (ZCurve.z b)).
  rewrite (axis_sum_comm _ _ ODD_EVEN_disjoint ODD_EVEN_cover (ZCurve.z a) (ZCurve.z b)).
  reflexivity.
Qed.

(** C6.  For two cells of equal depth, [a + b] and [b + a] both return,
    and the two cells are equal under [__eq__]. *)
Theorem add_commutative (a b : ZCurve.t) :
  ZCurve.depth a = ZCurve.depth b ->
  exists r s, ZCurve.add a b = Ok r /\ ZCurve.add b a = Ok s /\
              ZCurve.equals r s = true.
Proof.
  intros H. rewrite !add_unfold, H, Nat.eqb_refl.
  rewrite (add_same_depth_comm a b H).
  destruct (add_same_depth_ok b a) as [r [Hr _]].
  exists r, r. repeat split; auto. now apply equals_true_iff.
Qed.

Lemma add_commutative_witness :
  exists r s,
    ZCurve.add (ZCurve.Build 6 2 false) (ZCurve.Build 11 2 true) = Ok r /\
    ZCurve.add (ZCurve.Build 11 2 true) (ZCurve.Build 6 2 false) = Ok s /\
    ZCurve.equals r s = true.
Proof.
  apply (add_commutative (ZCurve.Build 6 2 false) (ZCurve.Build 11 2 true)).
  reflexivity.
Defined.

(** ** Addition at different depths *)

Lemma deeper_higher_cases (a b : ZCurve.t) :
  ZCurve.depth a <> ZCurve.depth b ->
  ((ZCurve.depth a < ZCurve.depth b)%nat /\
   Nat.ltb (ZCurve.depth a) (ZCurve.depth b) = true /\
   deeper a b = b /\ higher a b = a) \/
  ((ZCurve.depth b < ZCurve.depth a)%nat /\
   Nat.ltb (ZCurve.depth a) (ZCurve.depth b) = false /\
   deeper a b = a /\ higher a b = b).
Proof.
  intros H. unfold deeper, higher.
  destruct (Nat.ltb_spec (ZCurve.depth a) (ZCurve.depth b)); [left|right];
    repeat split; auto; lia.
Qed.

(** C5 (as amended).  When the depths differ, [a + b] is the equal-depth
    addition of the deeper operand and the first child of the shallower
    operand at the deeper depth; replacing the shallower operand in place
    gives the same cell. *)
Theorem add_mixed_depth (a b : ZCurve.t) :
  constructed a -> constructed b -> ZCurve.depth a <> ZCurve.depth b ->
  exists cs c,
    ZCurve.children (higher a b)
      (ZCurve.depth (deeper a b) - ZCurve.depth (higher a b)) = Ok cs /\
    first cs = Ok c /\
    ZCurve.depth c = ZCurve.depth (deeper a b) /\
    ZCurve.add a b = ZCurve.add_same_depth (deeper a b) c /\
    ZCurve.add a b =
    ZCurve.add (if Nat.ltb (ZCurve.depth a) (ZCurve.depth b) then c else a)
               (if Nat.ltb (ZCurve.depth a) (ZCurve.depth b) then b else c).
Proof.
  intros Ha Hb H.
  assert (H' : ZCurve.depth b <> ZCurve.depth a) by congruence.
  assert (Hh : constructed (higher a b))
    by (unfold higher; now destruct (Nat.ltb _ _)).
  pose proof (add_diff_ok a b H' Hh) as E.
  pose proof (children_ok (higher a b)
                (ZCurve.depth (deeper a b) - ZCurve.depth (higher a b)) Hh) as Hcs.
  pose proof (child_cells_first (higher a b)
                (ZCurve.depth (deeper a b) - ZCurve.depth (higher a b))) as Hc.
  destruct (deeper_higher_cases a b H) as [[L [El [Ed Eh]]]|[L [El [Ed Eh]]]];
    rewrite Ed, Eh in *; rewrite El.
  - replace (ZCurve.depth a + (ZCurve.depth b - ZCurve.depth a))%nat
      with (ZCurve.depth b) in Hc by lia.
    do 2 eexists. split; [exact Hcs|]. split; [exact Hc|].
    split; [reflexivity|]. split; [exact E|].
    rewrite E, add_unfold. cbn [ZCurve.depth]. rewrite Nat.eqb_refl.
    now apply add_same_depth_comm.
  - replace (ZCurve.depth b + (ZCurve.depth a - ZCurve.depth b))%nat
      with (ZCurve.depth a) in Hc by lia.
    do 2 eexists. split; [exact Hcs|]. split; [exact Hc|].
    split; [reflexivity|]. split; [exact E|].
    rewrite E, add_unfold. cbn [ZCurve.depth]. rewrite Nat.eqb_refl.
    reflexivity.
Qed.

Lemma add_mixed_depth_witness :
  exists cs c,
    ZCurve.children (higher (ZCurve.Build 1 1 false) (ZCurve.Build 0 0 false))
      (ZCurve.depth (deeper (ZCurve.Build 1 1 false) (ZCurve.Build 0 0 false))
       - ZCurve.depth (higher (ZCurve.Build 1 1 false) (ZCurve.Build 0 0 false)))
    = Ok cs /\
    first cs = Ok c /\
    ZCurve.depth c = ZCurve.depth (deeper (ZCurve.Build 1 1 false) (ZCurve.Build 0 0 false)) /\
    ZCurve.add (ZCurve.Build 1 1 false) (ZCurve.Build 0 0 false) =
    ZCurve.add_same_depth (deeper (ZCurve.Build 1 1 false) (ZCurve.Build 0 0 false)) c /\
    ZCurve.add (ZCurve.Build 1 1 false) (ZCurve.Build 0 0 false) =
    ZCurve.add (if Nat.ltb 1 0 then c else ZCurve.Build 1 1 false)
               (if Nat.ltb 1 0 then ZCurve.Build 0 0 false else c).
Proof.
  apply (add_mixed_depth (ZCurve.Build 1 1 false) (ZCurve.Build 0 0 false)).
  - unfold constructed. cbn. lia.
  - unfold constructed. cbn. lia.
  - cbn. lia.
Defined.

(** C5 as stated fails: with [a = ZCurve(1, 1)] and [b = ZCurve(0, 0)] the
    sum is [ZCurve(1, 1)], whereas adding to the deeper operand [a] a first
    child of [a] itself taken at the depth of [a] gives [ZCurve(0, 1)]. *)
Lemma add_mixed_depth_counterexample :
  ZCurve.depth (ZCurve.Build 1 1 false) <> ZCurve.depth (ZCurve.Build 0 0 false) /\
  deeper (ZCurve.Build 1 1 false) (ZCurve.Build 0 0 false) = ZCurve.Build 1 1 false /\
  ZCurve.add (ZCurve.Build 1 1 false) (ZCurve.Build 0 0 false) =
    Ok (ZCurve.Build 1 1 false) /\
  forall k cs c,
    ZCurve.children (ZCurve.Build 1 1 false) k = Ok cs -> first cs = Ok c ->
    ZCurve.depth c = ZCurve.depth (ZCurve.Build 1 1 false) ->
    ZCurve.add_same_depth (ZCurve.Build 1 1 false) c = Ok (ZCurve.Build 0 1 false) /\
    ZCurve.add_same_depth (ZCurve.Build 1 1 false) c <>
    ZCurve.add (ZCurve.Build 1 1 false) (ZCurve.Build 0 0 false).
Proof.
  assert (E : ZCurve.add (ZCurve.Build 1 1 false) (ZCurve.Build 0 0 false) =
              Ok (ZCurve.Build 1 1 false)).
  { rewrite add_unfold. vm_compute. reflexivity. }
  split; [cbn; lia|]. split; [reflexivity|]. split; [exact E|].
  intros k cs c Hcs Hc Hd. apply children_inv in Hcs. subst cs.
  rewrite child_cells_first in Hc. injection Hc as <-. cbn in Hd.
  assert (k = 0%nat) by lia. subst k. rewrite E.
  split; [vm_compute; reflexivity|]. vm_compute. discriminate.
Qed.

(** ** Invariants of the returned cells *)

Lemma parent_well_formed (c : ZCurve.t) (k : nat) :
  well_formed c ->
  well_formed (ZCurve.Build (ZCurve.z c / 4 ^ Z.of_nat k) (ZCurve.depth c - k) false).
Proof.
  unfold well_formed. cbn. intros [H0 H1].
  pose proof (pow4_pos k) as Hk. split; [apply Z.div_pos; lia|].
  apply Z.div_lt_upper_bound; [lia|].
  destruct (Nat.le_gt_cases k (ZCurve.depth c)) as [L|L].
  - rewrite Z.mul_comm, <- pow4_add.
    replace (ZCurve.depth c - k + k)%nat with (ZCurve.depth c) by lia. lia.
  - replace (ZCurve.depth c - k)%nat with 0%nat by lia.
    change (4 ^ Z.of_nat 0) with 1. rewrite Z.mul_1_r.
    assert (4 ^ Z.of_nat (ZCurve.depth c) <= 4 ^ Z.of_nat k)
      by (apply Z.pow_le_mono_r; lia).
    lia.
Qed.

Lemma well_formed_constructed (c : ZCurve.t) : well_formed c -> constructed c.
Proof. unfold well_formed, constructed. lia. Qed.

Lemma neighbours_invariants (c : ZCurve.t) :
  exists f, ZCurve.neighbours c = Ok f /\
            forall dir, ZCurve.halfsplit (f dir) = false /\
                        ZCurve.depth (f dir) = ZCurve.depth c /\
                        well_formed (f dir).
Proof.
  unfold ZCurve.neighbours, ZCurve.north, ZCurve.south, ZCurve.west, ZCurve.east.
  rewrite !init_mod. cbn [bind]. eexists. split; [reflexivity|].
  intros []; unfold well_formed; cbn; repeat split;
    apply Z.mod_pos_bound, pow4_pos.
Qed.

(** C8.  On a well-formed cell, [parent], [children], [neighbours] and
    [add] (with a well-formed second operand) all return, and every cell
    they return satisfies [0 <= position < 4^depth] at its own depth. *)
Theorem invariant_preserved (c other : ZCurve.t) (k : nat) :
  well_formed c -> well_formed other ->
  (exists p, ZCurve.parent c k = Ok p /\ well_formed p) /\
  (exists l, ZCurve.children c k = Ok l /\ Forall well_formed l) /\
  (exists f, ZCurve.neighbours c = Ok f /\ forall dir, well_formed (f dir)) /\
  (exists r, ZCurve.add c other = Ok r /\ well_formed r).
Proof.
  intros Hc Ho.
  pose proof (well_formed_constructed c Hc) as Cc.
  pose proof (well_formed_constructed other Ho) as Co.
  split; [|split; [|split]].
  - eexists. split; [now apply parent_ok|]. now apply parent_well_formed.
  - exists (child_cells c k). split; [now apply children_ok|].
    apply Forall_forall. intros d Hd. apply child_cells_In in Hd.
    destruct Hd as [j [Hj ->]]. unfold well_formed in *. cbn.
    rewrite pow4_add. pose proof (pow4_pos k). nia.
  - destruct (neighbours_invariants c) as [f [Hf H]]. exists f.
    split; [exact Hf|]. intros dir. apply H.
  - destruct (add_ok c other Cc Co) as [r [Hr [_ Hw]]]. now exists r.
Qed.

Lemma invariant_preserved_witness :
  (exists p, ZCurve.parent (ZCurve.Build 5 2 false) 1 = Ok p /\ well_formed p) /\
  (exists l, ZCurve.children (ZCurve.Build 5 2 false) 1 = Ok l /\ Forall well_formed l) /\
  (exists f, ZCurve.neighbours (ZCurve.Build 5 2 false) = Ok f /\
             forall dir, well_formed (f dir)) /\
  (exists r, ZCurve.add (ZCurve.Build 5 2 false) (ZCurve.Build 3 1 true) = Ok r /\
             well_formed r).
Proof.
  apply (invariant_preserved (ZCurve.Build 5 2 false) (ZCurve.Build 3 1 true) 1);
    unfold well_formed; cbn; lia.
Defined.

(** C10.  On every cell, half-split or not, [parent], [children],
    [neighbours] and [add] return, and every cell they return has
    [halfsplit = false]. *)
Theorem halfsplit_discarded (c other : ZCurve.t) (k : nat) :
  constructed c -> constructed other ->
  (exists p, ZCurve.parent c k = Ok p /\ ZCurve.halfsplit p = false) /\
  (exists l, ZCurve.children c k = Ok l /\
             Forall (fun d => ZCurve.halfsplit d = false) l) /\
  (exists f, ZCurve.neighbours c = Ok f /\
             forall dir, ZCurve.halfsplit (f dir) = false) /\
  (exists r, ZCurve.add c other = Ok r /\ ZCurve.halfsplit r = false).
Proof.
  intros Cc Co. split; [|split; [|split]].
  - eexists. split; [now apply parent_ok|]. reflexivity.
  - exists (child_cells c k). split; [now apply children_ok|].
    apply Forall_forall. intros d Hd. apply child_cells_In in Hd.
    now destruct Hd as [j [Hj ->]].
  - destruct (neighbours_invariants c) as [f [Hf H]]. exists f.
    split; [exact Hf|]. intros dir. apply H.
  - destruct (add_ok c other Cc Co) as [r [Hr [Hh _]]]. now exists r.
Qed.

Lemma halfsplit_discarded_witness :
  (exists p, ZCurve.parent (ZCurve.Build 4 2 true) 1 = Ok p /\
             ZCurve.halfsplit p = false) /\
  (exists l, ZCurve.children (ZCurve.Build 4 2 true) 1 = Ok l /\
             Forall (fun d => ZCurve.halfsplit d = false) l) /\
  (exists f, ZCurve.neighbours (ZCurve.Build 4 2 true) = Ok f /\
             forall dir, ZCurve.halfsplit (f dir) = false) /\
  (exists r, ZCurve.add (ZCurve.Build 4 2 true) (ZCurve.Build 2 1 true) = Ok r /\
             ZCurve.halfsplit r = false).
Proof.
  apply (halfsplit_discarded (ZCurve.Build 4 2 true) (ZCurve.Build 2 1 true) 1);
    unfold constructed; cbn; lia.
Defined.

(** ** Serialisation *)

Lemma single_bit (a i : Z) :
  0 <= i -> Z.shiftr (Z.land a (Z.shiftl 1 i)) i = Z.b2z (Z.testbit a i).
Proof.
  intros Hi. apply Z.bits_inj'. intros n Hn.
  rewrite select_shiftr_bit by lia.
  destruct (Z.testbit a i); cbn [Z.b2z].
  - change 1 with (2 ^ 0). rewrite Z.pow2_bits_eqb, andb_true_r by lia.
    destruct (Z.eqb_spec (n + i) i), (Z.eqb_spec 0 n); auto; lia.
  - now rewrite Z.bits_0, andb_false_r.
Qed.

Lemma str_bit (b : bool) : str (Z.b2z b) = [bitchar b].
Proof. now destruct b. Qed.

Lemma fold_left_append {A B : Type} (f : A -> list B) (l : list A) (acc : list B) :
  fold_left (fun res i => res ++ f i) l acc = acc ++ flat_map f l.
Proof.
  revert acc. induction l as [|a l IH]; intros acc; cbn.
  - now rewrite app_nil_r.
  - now rewrite IH, app_assoc.
Qed.

Lemma flat_map_singleton {A B : Type} (f : A -> list B) (g : A -> B) (l : list A) :
  (forall a, In a l -> f a = [g a]) -> flat_map f l = map g l.
Proof.
  induction l as [|a l IH]; intros H; cbn; [reflexivity|].
  rewrite H by now left. cbn. f_equal. apply IH. intros; apply H; now right.
Qed.

Lemma toString_bits (c : ZCurve.t) :
  ZCurve.toString c =
  map bitchar
      (rev (map (Z.testbit (ZCurve.z c))
                (range (if ZCurve.halfsplit c then 1 else 0)
                       (Z.of_nat (ZCurve.depth c) * 2)))).
Proof.
  unfold ZCurve.toString. rewrite fold_left_append. cbn [app].
  rewrite <- map_rev, map_map, map_rev. f_equal.
  apply flat_map_singleton. intros i Hi. apply In_range in Hi.
  rewrite single_bit by (destruct (ZCurve.halfsplit c); lia).
  apply str_bit.
Qed.

Lemma toString_length (c : ZCurve.t) :
  List.length (ZCurve.toString c) =
  (2 * ZCurve.depth c - (if ZCurve.halfsplit c then 1 else 0))%nat.
Proof.
  rewrite toString_bits, length_map, length_rev, length_map, range_length.
  destruct (ZCurve.halfsplit c); lia.
Qed.

Lemma int2_digits_app (acc : Z) (s t : list ascii) :
  int2_digits acc (s ++ t) = (v <- int2_digits acc s ;; int2_digits v t).
Proof.
  revert acc. induction s as [|ch s IH]; intros acc; cbn; [reflexivity|].
  destruct (Ascii.eqb ch "0"); [apply IH|].
  destruct (Ascii.eqb ch "1"); [apply IH|reflexivity].
Qed.

Lemma int2_digits_bitchar (acc : Z) (b : bool) :
  int2_digits acc [bitchar b] = Ok (2 * acc + Z.b2z b).
Proof. destruct b; cbn; f_equal; lia. Qed.

Lemma int2_digits_bits (acc : Z) (bs : list bool) :
  int2_digits acc (map bitchar (rev bs)) =
  Ok (acc * 2 ^ Z.of_nat (List.length bs) + lsb_value bs).
Proof.
  revert acc. induction bs as [|b bs IH]; intros acc; cbn [rev map List.length lsb_value fold_right].
  - cbn. f_equal. lia.
  - rewrite map_app, int2_digits_app, IH. cbn [bind map].
    rewrite int2_digits_bitchar. f_equal. fold (lsb_value bs).
    rewrite Nat2Z.inj_succ, Z.pow_succ_r by lia. lia.
Qed.

Lemma lsb_value_testbits (a : Z) (n : nat) (k : Z) :
  0 <= k ->
  lsb_value (map (Z.testbit a) (range k (k + Z.of_nat n))) =
  (a / 2 ^ k) mod 2 ^ Z.of_nat n.
Proof.
  revert k. induction n as [|n IH]; intros k Hk.
  - rewrite range_nil by lia. cbn. now rewrite Z.mod_1_r.
  - rewrite range_cons by lia. cbn [map lsb_value fold_right]. fold lsb_value.
    replace (k + Z.of_nat (S n)) with (k + 1 + Z.of_nat n) by lia.
    rewrite IH by lia.
    rewrite Nat2Z.inj_succ, Z.pow_succ_r by lia.
    rewrite Z.rem_mul_r by (try apply Z.pow_pos_nonneg; lia).
    rewrite Z.testbit_spec' by lia.
    rewrite Z.pow_add_r, <- Z.div_div by (try apply Z.pow_pos_nonneg; lia).
    reflexivity.
Qed.

Lemma int2_nonempty (s : list ascii) : s <> [] -> int2 s = int2_digits 0 s.
Proof. destruct s; [congruence|reflexivity]. Qed.

(** C2 (as amended).  For a valid cell of depth at least 1 whose position
    is even when [halfsplit] is set, the flag agrees with the parity of the
    length of [str(c)] and [fromBitstring(str(c))] returns a cell equal to
    [c]. *)
Theorem bitstring_roundtrip (c : ZCurve.t) :
  well_formed c -> (1 <= ZCurve.depth c)%nat ->
  (ZCurve.halfsplit c = true -> ZCurve.z c mod 2 = 0) ->
  ZCurve.halfsplit c = negb (Z.of_nat (List.length (ZCurve.toString c)) mod 2 =? 0) /\
  exists c', ZCurve.fromBitstring (ZCurve.toString c) = Ok c' /\
             ZCurve.equals c' c = true.
Proof.
  intros [H0 H1] Hd Hh. destruct c as [zc d hs]. cbn [ZCurve.z ZCurve.depth ZCurve.halfsplit] in *.
  assert (Hpar : hs = negb (Z.of_nat (List.length (ZCurve.toString (ZCurve.Build zc d hs))) mod 2 =? 0)).
  { rewrite toString_length. cbn [ZCurve.depth ZCurve.halfsplit].
    destruct hs.
    - replace (Z.of_nat (2 * d - 1) mod 2) with 1 by divmod. reflexivity.
    - replace (Z.of_nat (2 * d - 0) mod 2) with 0 by divmod. reflexivity. }
  split; [exact Hpar|].
  exists (ZCurve.Build zc d hs). split; [|now apply equals_true_iff].
  unfold ZCurve.fromBitstring. rewrite <- Hpar.
  rewrite pow4_pow2 in H1.
  pose proof (toString_length (ZCurve.Build zc d hs)) as Hlen.
  rewrite toString_bits in *. cbn [ZCurve.z ZCurve.depth ZCurve.halfsplit] in *.
  destruct hs.
  - rewrite length_app, Hlen. cbn [List.length].
    replace ((2 * d - 1 + 1) / 2)%nat with d
      by (apply Nat.div_unique with 0%nat; lia).
    rewrite int2_nonempty by (intros E; apply (f_equal (@List.length _)) in E;
                              rewrite length_app in E; cbn in E; lia).
    rewrite int2_digits_app, int2_digits_bits. cbn [bind].
    change ["0"%char] with [bitchar false]. rewrite int2_digits_bitchar.
    cbn [bind]. rewrite length_map, range_length.
    replace (Z.of_nat d * 2) with (1 + Z.of_nat (2 * d - 1)) by lia.
    rewrite lsb_value_testbits by lia.
    replace (2 * (0 * 2 ^ Z.of_nat (Z.to_nat (1 + Z.of_nat (2 * d - 1) - 1))
                  + (zc / 2 ^ 1) mod 2 ^ Z.of_nat (2 * d - 1)) + Z.b2z false)
      with zc; [apply init_ok; rewrite pow4_pow2; lia|].
    cbn [Z.b2z]. change (2 ^ 1) with 2.
    pose proof (Z.rem_mul_r zc 2 (2 ^ Z.of_nat (2 * d - 1)) ltac:(lia)
                  ltac:(apply Z.pow_pos_nonneg; lia)) as R.
    rewrite <- Z.pow_succ_r in R by lia.
    replace (Z.succ (Z.of_nat (2 * d - 1))) with (2 * Z.of_nat d) in R by lia.
    rewrite Z.mod_small in R by lia. rewrite Hh in R by reflexivity. lia.
  - rewrite Hlen.
    replace ((2 * d - 0) / 2)%nat with d
      by (apply Nat.div_unique with 0%nat; lia).
    rewrite int2_nonempty by (intros E; apply (f_equal (@List.length _)) in E;
                              rewrite Hlen in E; cbn in E; lia).
    rewrite int2_digits_bits. cbn [bind]. rewrite length_map, range_length.
    replace (Z.of_nat d * 2) with (0 + Z.of_nat (2 * d)) by lia.
    rewrite lsb_value_testbits by lia.
    replace (0 * 2 ^ Z.of_nat (Z.to_nat (0 + Z.of_nat (2 * d) - 0))
             + (zc / 2 ^ 0) mod 2 ^ Z.of_nat (2 * d))
      with zc; [apply init_ok; rewrite pow4_pow2; lia|].
    change (2 ^ 0) with 1. rewrite Z.div_1_r.
    replace (Z.of_nat (2 * d)) with (2 * Z.of_nat d) by lia.
    rewrite Z.mod_small by lia. lia.
Qed.

Lemma bitstring_roundtrip_witness :
  ZCurve.halfsplit (ZCurve.Build 6 2 true) =
    negb (Z.of_nat (List.length (ZCurve.toString (ZCurve.Build 6 2 true))) mod 2 =? 0) /\
  exists c', ZCurve.fromBitstring (ZCurve.toString (ZCurve.Build 6 2 true)) = Ok c' /\
             ZCurve.equals c' (ZCurve.Build 6 2 true) = true.
Proof.
  apply (bitstring_roundtrip (ZCurve.Build 6 2 true)).
  - unfold well_formed. cbn. lia.
  - cbn. lia.
  - reflexivity.
Defined.

(** C2 as stated fails twice.  [ZCurve(1, 1, True)] is valid and its flag
    agrees with the odd length of its string, yet the string gives back
    [ZCurve(0, 1, True)]: the dropped bit is read back as 0.  And the string
    of the valid depth-0 cell is empty, on which [int] raises. *)
Lemma bitstring_roundtrip_counterexample :
  (well_formed (ZCurve.Build 1 1 true) /\
   ZCurve.halfsplit (ZCurve.Build 1 1 true) =
     negb (Z.of_nat (List.length (ZCurve.toString (ZCurve.Build 1 1 true))) mod 2 =? 0) /\
   ZCurve.fromBitstring (ZCurve.toString (ZCurve.Build 1 1 true)) =
     Ok (ZCurve.Build 0 1 true) /\
   ZCurve.equals (ZCurve.Build 0 1 true) (ZCurve.Build 1 1 true) = false) /\
  (well_formed (ZCurve.Build 0 0 false) /\
   ZCurve.halfsplit (ZCurve.Build 0 0 false) =
     negb (Z.of_nat (List.length (ZCurve.toString (ZCurve.Build 0 0 false))) mod 2 =? 0) /\
   ZCurve.fromBitstring (ZCurve.toString (ZCurve.Build 0 0 false)) = Raise ValueError).
Proof.
  unfold well_formed. cbn [ZCurve.z ZCurve.depth].
  repeat split; try (cbn; lia); vm_compute; reflexivity.
Qed.

(** ** One step along an axis and back *)

Lemma submasks_complete (bits : list Z) (a : Z) :
  0 <= a -> (forall n, 0 <= n -> Z.testbit a n = true -> In n bits) ->
  In a (submasks bits).
Proof.
  revert a. induction bits as [|p ps IH]; intros a Ha H.
  - left. apply Z.bits_inj'. intros n Hn. rewrite Z.bits_0.
    destruct (Z.testbit a n) eqn:E; [|reflexivity]. destruct (H n Hn E).
  - cbn [submasks]. apply in_or_app.
    destruct (Z.testbit a p) eqn:Ep.
    + right. apply in_map_iff. exists (Z.clearbit a p). split.
      * change (Z.lor (Z.clearbit a p) (Z.shiftl 1 p))
          with (Z.setbit (Z.clearbit a p) p).
        apply Z.bits_inj'. intros n Hn.
        rewrite Z.setbit_eqb, Z.clearbit_eqb.
        2:{ destruct (Z.ltb_spec p 0); [|lia].
            rewrite Z.testbit_neg_r in Ep by lia. discriminate. }
        destruct (Z.eqb_spec p n) as [->|Hne]; cbn.
        -- now rewrite Ep.
        -- now rewrite andb_true_r.
      * apply IH.
        -- rewrite Z.clearbit_spec'. apply Z.ldiff_nonneg. now left.
        -- intros n Hn Hb. apply Z.clearbit_iff in Hb. destruct Hb as [Hb Hne].
           destruct (H n Hn Hb) as [->|Hin]; [congruence|exact Hin].
    + left. apply IH; [exact Ha|]. intros n Hn Hb.
      destruct (H n Hn Hb) as [<-|Hin]; [congruence|exact Hin].
Qed.

Lemma mod_pow4_land (x : Z) (d : nat) :
  x mod 4 ^ Z.of_nat d = Z.land x (Z.ones (2 * Z.of_nat d)).
Proof. rewrite Z.land_ones by lia. now rewrite pow4_pow2. Qed.

Lemma low_bits (a : Z) (d : nat) (n : Z) :
  0 <= a < 4 ^ Z.of_nat d -> Z.testbit a n = true -> n < 2 * Z.of_nat d.
Proof.
  intros Ha Hb. rewrite pow4_pow2 in Ha.
  destruct (Z.lt_ge_cases n (2 * Z.of_nat d)) as [G|G]; [exact G|].
  rewrite (testbit_above_pow2 a (2 * Z.of_nat d) n) in Hb by lia. discriminate.
Qed.

Lemma lor_bound (a b : Z) (d : nat) :
  0 <= a < 4 ^ Z.of_nat d -> 0 <= b < 4 ^ Z.of_nat d ->
  0 <= Z.lor a b < 4 ^ Z.of_nat d.
Proof.
  intros Ha Hb.
  assert (0 <= Z.lor a b) by (apply Z.lor_nonneg; lia).
  split; [assumption|]. rewrite pow4_pow2.
  apply bound_of_high_bits; [assumption|lia|].
  intros n Hn. rewrite Z.lor_spec. rewrite pow4_pow2 in Ha, Hb.
  now rewrite (testbit_above_pow2 a (2 * Z.of_nat d)),
              (testbit_above_pow2 b (2 * Z.of_nat d)) by lia.
Qed.

Lemma land_bound (a m : Z) (d : nat) :
  0 <= a < 4 ^ Z.of_nat d -> 0 <= Z.land a m < 4 ^ Z.of_nat d.
Proof.
  intros Ha.
  assert (0 <= Z.land a m) by (apply Z.land_nonneg; lia).
  split; [assumption|]. rewrite pow4_pow2.
  apply bound_of_high_bits; [assumption|lia|].
  intros n Hn. rewrite Z.land_spec. rewrite pow4_pow2 in Ha.
  now rewrite (testbit_above_pow2 a (2 * Z.of_nat d)) by lia.
Qed.

Lemma axis_inverse_check_In (K L : Z) (d : nat) (a : Z) :
  axis_inverse_check K L d = true -> In a (submasks (axis_bits K d)) ->
  axis_up K L (axis_down K a mod 4 ^ Z.of_nat d) mod 4 ^ Z.of_nat d = a /\
  axis_down K (axis_up K L a mod 4 ^ Z.of_nat d) mod 4 ^ Z.of_nat d = a.
Proof.
  unfold axis_inverse_check. rewrite !mod_pow4_land.
  generalize (submasks (axis_bits K d)) as l.
  generalize (Z.ones (2 * Z.of_nat d)) as m.
  intros m l H Hin. cbv zeta in H. rewrite forallb_forall in H. specialize (H a Hin).
  apply andb_true_iff in H. destruct H as [H1 H2].
  split; apply Z.eqb_eq; assumption.
Qed.

Section AxisStep.

Variables K L : Z.
Hypothesis KL_disjoint : Z.land K L = 0.
Hypothesis KL_cover : Z.lor K L = Z.ones 32.
Hypothesis KL_checked :
  forall d, (d <= 16)%nat -> axis_inverse_check K L d = true.

Lemma axis_part_listed (d : nat) (a : Z) :
  0 <= a < 4 ^ Z.of_nat d -> Z.land a K = a -> In a (submasks (axis_bits K d)).
Proof.
  intros Ha Hm. apply submasks_complete; [lia|].
  intros n Hn Hb. unfold axis_bits. apply filter_In.
  pose proof (low_bits a d n Ha Hb) as Hlow.
  assert (Hk : Z.testbit K n = true).
  { rewrite <- Hm, Z.land_spec in Hb. now apply andb_true_iff in Hb. }
  pose proof (axis_bits_cover K L KL_cover n Hn) as C.
  rewrite Hk in C. cbn in C. symmetry in C. apply Z.ltb_lt in C.
  split; [apply In_range; lia|].
  rewrite Hk. apply Z.ltb_lt. exact Hlow.
Qed.

Lemma axis_inverse (d : nat) (a : Z) :
  (d <= 16)%nat -> 0 <= a < 4 ^ Z.of_nat d -> Z.land a K = a ->
  axis_up K L (axis_down K a mod 4 ^ Z.of_nat d) mod 4 ^ Z.of_nat d = a /\
  axis_down K (axis_up K L a mod 4 ^ Z.of_nat d) mod 4 ^ Z.of_nat d = a.
Proof.
  intros Hd Ha Hm.
  exact (axis_inverse_check_In K L d a (KL_checked d Hd) (axis_part_listed d a Ha Hm)).
Qed.

(** Bit by bit: what is known at position [n] of a position [z0] of
    depth [d <= 16] and of the two masks. *)
Lemma position_bit_cases (d : nat) (z0 n : Z) :
  (d <= 16)%nat -> 0 <= z0 < 4 ^ Z.of_nat d -> 0 <= n ->
  Z.testbit K n && Z.testbit L n = false /\
  (Z.testbit z0 n = true -> Z.testbit K n || Z.testbit L n = true) /\
  (Z.testbit z0 n = true -> (n <? 2 * Z.of_nat d) = true).
Proof.
  intros Hd Hz Hn. split; [apply axis_bits_disjoint; assumption|].
  split; intros Hb; pose proof (low_bits z0 d n Hz Hb).
  - rewrite (axis_bits_cover K L KL_cover n Hn). apply Z.ltb_lt. lia.
  - apply Z.ltb_lt. lia.
Qed.

Lemma step_down_split (d : nat) (z0 : Z) :
  (d <= 16)%nat -> 0 <= z0 < 4 ^ Z.of_nat d ->
  step_down K L z0 d =
  Z.lor (axis_down K (Z.land z0 K) mod 4 ^ Z.of_nat d) (Z.land z0 L).
Proof.
  intros Hd Hz. unfold step_down, axis_down. rewrite !mod_pow4_land.
  apply Z.bits_inj'. intros n Hn.
  rewrite !Z.lor_spec, !Z.land_spec, !Z.lor_spec, !Z.land_spec,
    Z.testbit_ones_nonneg by lia.
  destruct (position_bit_cases d z0 n Hd Hz Hn) as [D [C B]].
  destruct (Z.testbit z0 n); [rewrite B by reflexivity|];
    destruct (Z.testbit K n), (Z.testbit L n), (Z.testbit (Z.land z0 K - 1) n);
    cbn in *; try reflexivity; try discriminate;
    now rewrite ?andb_false_r, ?orb_false_r.
Qed.

Lemma step_up_split (d : nat) (z0 : Z) :
  (d <= 16)%nat -> 0 <= z0 < 4 ^ Z.of_nat d ->
  step_up K L z0 d =
  Z.lor (axis_up K L (Z.land z0 K) mod 4 ^ Z.of_nat d) (Z.land z0 L).
Proof.
  intros Hd Hz. unfold step_up, axis_up.
  replace (Z.lor (Z.land z0 K) L) with (Z.lor z0 L).
  - rewrite !mod_pow4_land.
    apply Z.bits_inj'. intros n Hn.
    rewrite !Z.lor_spec, !Z.land_spec, !Z.lor_spec, !Z.land_spec,
      Z.testbit_ones_nonneg by lia.
    destruct (position_bit_cases d z0 n Hd Hz Hn) as [D [C B]].
    destruct (Z.testbit z0 n); [rewrite B by reflexivity|];
      destruct (Z.testbit K n), (Z.testbit L n), (Z.testbit (Z.lor z0 L + 1) n);
      cbn in *; try reflexivity; try discriminate;
      now rewrite ?andb_false_r, ?orb_false_r.
  - apply Z.bits_inj'. intros n Hn. rewrite !Z.lor_spec, Z.land_spec.
    destruct (position_bit_cases d z0 n Hd Hz Hn) as [D [C B]].
    destruct (Z.testbit z0 n); [specialize (C eq_refl)|];
      destruct (Z.testbit K n), (Z.testbit L n);
      cbn in *; try reflexivity; discriminate.
Qed.

(** A part [p] on the axis [K] joined with the part of [z0] on [L]. *)
Lemma recombine (d : nat) (z0 p : Z) :
  Z.land p K = p ->
  Z.land (Z.lor p (Z.land z0 L)) K = p /\
  Z.land (Z.lor p (Z.land z0 L)) L = Z.land z0 L.
Proof.
  intros Hp. split; apply Z.bits_inj'; intros n Hn;
    rewrite <- Hp; rewrite !Z.land_spec, !Z.lor_spec, !Z.land_spec;
    pose proof (axis_bits_disjoint K L KL_disjoint n) as D;
    destruct (Z.testbit K n), (Z.testbit L n), (Z.testbit p n), (Z.testbit z0 n);
    cbn in *; try reflexivity; discriminate.
Qed.

Lemma axis_part_mod (x : Z) (d : nat) :
  Z.land (Z.land x K mod 4 ^ Z.of_nat d) K = Z.land x K mod 4 ^ Z.of_nat d.
Proof.
  rewrite mod_pow4_land. apply Z.bits_inj'. intros n Hn.
  rewrite !Z.land_spec. destruct (Z.testbit K n);
    now rewrite ?andb_false_r, ?andb_true_r.
Qed.

Lemma position_split (d : nat) (z0 : Z) :
  (d <= 16)%nat -> 0 <= z0 < 4 ^ Z.of_nat d ->
  Z.lor (Z.land z0 K) (Z.land z0 L) = z0.
Proof.
  intros Hd Hz. apply Z.bits_inj'. intros n Hn.
  rewrite Z.lor_spec, !Z.land_spec.
  destruct (position_bit_cases d z0 n Hd Hz Hn) as [D [C B]].
  destruct (Z.testbit z0 n); [specialize (C eq_refl)|];
    destruct (Z.testbit K n), (Z.testbit L n);
    cbn in *; try reflexivity; discriminate.
Qed.

Lemma land_land_same (x : Z) : Z.land (Z.land x K) K = Z.land x K.
Proof. now rewrite <- Z.land_assoc, Z.land_diag. Qed.

Lemma step_down_up (d : nat) (z0 : Z) :
  (d <= 16)%nat -> 0 <= z0 < 4 ^ Z.of_nat d ->
  step_up K L (step_down K L z0 d) d = z0.
Proof.
  intros Hd Hz. pose proof (pow4_pos d) as Hp.
  rewrite (step_down_split d z0 Hd Hz).
  set (p := axis_down K (Z.land z0 K) mod 4 ^ Z.of_nat d).
  assert (Hpk : Z.land p K = p) by apply axis_part_mod.
  assert (Hpb : 0 <= p < 4 ^ Z.of_nat d) by (apply Z.mod_pos_bound; lia).
  destruct (recombine d z0 p Hpk) as [R1 R2].
  rewrite step_up_split by (auto; apply lor_bound; auto; now apply land_bound).
  rewrite R1, R2. unfold p.
  destruct (axis_inverse d (Z.land z0 K) Hd (land_bound z0 K d Hz)
              (land_land_same z0)) as [-> _].
  now apply position_split with d.
Qed.

Lemma step_up_down (d : nat) (z0 : Z) :
  (d <= 16)%nat -> 0 <= z0 < 4 ^ Z.of_nat d ->
  step_down K L (step_up K L z0 d) d = z0.
Proof.
  intros Hd Hz. pose proof (pow4_pos d) as Hp.
  rewrite (step_up_split d z0 Hd Hz).
  set (p := axis_up K L (Z.land z0 K) mod 4 ^ Z.of_nat d).
  assert (Hpk : Z.land p K = p) by apply axis_part_mod.
  assert (Hpb : 0 <= p < 4 ^ Z.of_nat d) by (apply Z.mod_pos_bound; lia).
  destruct (recombine d z0 p Hpk) as [R1 R2].
  rewrite step_down_split by (auto; apply lor_bound; auto; now apply land_bound).
  rewrite R1, R2. unfold p.
  destruct (axis_inverse d (Z.land z0 K) Hd (land_bound z0 K d Hz)
              (land_land_same z0)) as [_ ->].
  now apply position_split with d.
Qed.

End AxisStep.

(** The enumeration, run for both axes and every depth up to 16. *)
Lemma axes_checked :
  forallb (fun d => axis_inverse_check ZCurve.EVENBITS ZCurve.ODDBITS d
                    && axis_inverse_check ZCurve.ODDBITS ZCurve.EVENBITS d)
          (seq 0 17) = true.
Proof. vm_cast_no_check (@eq_refl bool true). Qed.

Lemma EVEN_checked (d : nat) :
  (d <= 16)%nat -> axis_inverse_check ZCurve.EVENBITS ZCurve.ODDBITS d = true.
Proof.
  intros Hd. pose proof axes_checked as H. rewrite forallb_forall in H.
  specialize (H d). rewrite in_seq in H.
  apply andb_true_iff in H; [tauto|lia].
Qed.

Lemma ODD_checked (d : nat) :
  (d <= 16)%nat -> axis_inverse_check ZCurve.ODDBITS ZCurve.EVENBITS d = true.
Proof.
  intros Hd. pose proof axes_checked as H. rewrite forallb_forall in H.
  specialize (H d). rewrite in_seq in H.
  apply andb_true_iff in H; [tauto|lia].
Qed.

Lemma neighbours_step (c : ZCurve.t) :
  exists f, ZCurve.neighbours c = Ok f /\
            forall dir, f dir = ZCurve.Build (step dir (ZCurve.z c) (ZCurve.depth c))
                                             (ZCurve.depth c) false.
Proof.
  unfold ZCurve.neighbours, ZCurve.north, ZCurve.south, ZCurve.west, ZCurve.east.
  rewrite !init_mod. cbn [bind]. eexists. split; [reflexivity|].
  intros []; reflexivity.
Qed.

Lemma step_opposite (dir : D) (z0 : Z) (d : nat) :
  (d <= 16)%nat -> 0 <= z0 < 4 ^ Z.of_nat d ->
  step (opposite dir) (step dir z0 d) d = z0.
Proof.
  intros Hd Hz. destruct dir; cbn [step opposite].
  - apply step_down_up; auto using EVEN_ODD_disjoint, EVEN_ODD_cover, EVEN_checked.
  - apply step_up_down; auto using EVEN_ODD_disjoint, EVEN_ODD_cover, EVEN_checked.
  - apply step_down_up; auto using ODD_EVEN_disjoint, ODD_EVEN_cover, ODD_checked.
  - apply step_up_down; auto using ODD_EVEN_disjoint, ODD_EVEN_cover, ODD_checked.
Qed.

(** C4 (as amended).  For every well-formed cell [c] with
    [halfsplit = false] at a depth [0 < d <= 16] and each direction, the
    neighbour in that direction followed by the neighbour in the opposite
    direction is a cell equal to [c]; steps that wrap around the boundary
    are included. *)
Theorem neighbours_inverse (c : ZCurve.t) (dir : D) :
  well_formed c -> ZCurve.halfsplit c = false ->
  (0 < ZCurve.depth c <= 16)%nat ->
  exists f g,
    ZCurve.neighbours c = Ok f /\
    ZCurve.neighbours (f dir) = Ok g /\
    ZCurve.equals (g (opposite dir)) c = true.
Proof.
  intros Hw Hh Hd.
  destruct (neighbours_step c) as [f [Hf Ef]].
  destruct (neighbours_step (f dir)) as [g [Hg Eg]].
  exists f, g. split; [exact Hf|]. split; [exact Hg|].
  apply equals_true_iff. rewrite Eg, Ef. cbn [ZCurve.z ZCurve.depth].
  rewrite step_opposite by (try apply Hw; lia).
  destruct c as [zc d hs]. cbn in *. now subst hs.
Qed.

Lemma neighbours_inverse_witness :
  exists f g,
    ZCurve.neighbours (ZCurve.Build 1 1 false) = Ok f /\
    ZCurve.neighbours (f EAST) = Ok g /\
    ZCurve.equals (g (opposite EAST)) (ZCurve.Build 1 1 false) = true.
Proof.
  apply (neighbours_inverse (ZCurve.Build 1 1 false) EAST).
  - unfold well_formed. cbn. lia.
  - reflexivity.
  - cbn. lia.
Defined.

(** C4 as stated fails in three ways.  On the half-split cell
    [ZCurve(0, 1, True)] the way north and back south ends on
    [ZCurve(0, 1, False)].  At depth 17 the 32-bit masks lose the high
    bits: from [ZCurve(2^32, 17)] the way north and back south ends on
    position 0.  And from the cell [ZCurve(-1, 1)], which the constructor
    accepts, it ends on position 3. *)
Lemma neighbours_inverse_counterexample :
  (well_formed (ZCurve.Build 0 1 true) /\
   exists f g,
     ZCurve.neighbours (ZCurve.Build 0 1 true) = Ok f /\
     ZCurve.neighbours (f NORTH) = Ok g /\
     g (opposite NORTH) = ZCurve.Build 0 1 false /\
     ZCurve.equals (g (opposite NORTH)) (ZCurve.Build 0 1 true) = false) /\
  (well_formed (ZCurve.Build 4294967296 17 false) /\
   exists f g,
     ZCurve.neighbours (ZCurve.Build 4294967296 17 false) = Ok f /\
     ZCurve.neighbours (f NORTH) = Ok g /\
     g (opposite NORTH) = ZCurve.Build 0 17 false /\
     ZCurve.equals (g (opposite NORTH)) (ZCurve.Build 4294967296 17 false) = false) /\
  (ZCurve.init (-1) 1 false = Ok (ZCurve.Build (-1) 1 false) /\
   exists f g,
     ZCurve.neighbours (ZCurve.Build (-1) 1 false) = Ok f /\
     ZCurve.neighbours (f NORTH) = Ok g /\
     g (opposite NORTH) = ZCurve.Build 3 1 false /\
     ZCurve.equals (g (opposite NORTH)) (ZCurve.Build (-1) 1 false) = false).
Proof.
  split; [|split];
    (split; [first [unfold well_formed; cbn; lia | vm_compute; reflexivity]|]);
    eexists; eexists;
    (split; [vm_compute; reflexivity|]);
    (split; [vm_compute; reflexivity|]);
    split; vm_compute; reflexivity.
Qed.

(** ** The concrete scenarios of the depth-1 curve *)

Example fromXY_origin :
  ZCurve.fromXY (0, 0) 1 = Ok (ZCurve.Build 0 1 false) /\
  ZCurve.toString (ZCurve.Build 0 1 false) = ["0"%char; "0"%char].
Proof. split; vm_compute; reflexivity. Qed.

Example fromXY_corner :
  ZCurve.fromXY (1, 1) 1 = Ok (ZCurve.Build 3 1 false) /\
  ZCurve.toString (ZCurve.Build 3 1 false) = ["1"%char; "1"%char].
Proof. split; vm_compute; reflexivity. Qed.

Example east_without_wrap :
  ZCurve.east (ZCurve.Build 0 1 false) = Ok (ZCurve.Build 1 1 false).
Proof. vm_compute. reflexivity. Qed.

Example east_with_wrap :
  ZCurve.east (ZCurve.Build 1 1 false) = Ok (ZCurve.Build 0 1 false).
Proof. vm_compute. reflexivity. Qed.

Example children_of_3 :
  ZCurve.children (ZCurve.Build 3 1 false) 1 =
  Ok [ZCurve.Build 12 2 false; ZCurve.Build 13 2 false;
      ZCurve.Build 14 2 false; ZCurve.Build 15 2 false].
Proof. vm_compute. reflexivity. Qed.

Example parent_of_5 :
  ZCurve.parent (ZCurve.Build 5 2 false) 1 = Ok (ZCurve.Build 1 1 false).
Proof. vm_compute. reflexivity. Qed.

(** ** Coordinates of an arbitrary cell *)

Lemma mask_bits (n : Z) :
  0 <= n ->
  Z.testbit ZCurve.ODDBITS n = (n <? 32) && (n mod 2 =? 0) /\
  Z.testbit ZCurve.EVENBITS n = (n <? 32) && negb (n mod 2 =? 0).
Proof.
  intros Hn. destruct (Z.ltb_spec n 32) as [H|H].
  - assert (G : forallb (fun i => Bool.eqb (Z.testbit ZCurve.ODDBITS i) (i mod 2 =? 0)
                                  && Bool.eqb (Z.testbit ZCurve.EVENBITS i)
                                              (negb (i mod 2 =? 0)))
                        (range 0 32) = true) by (vm_compute; reflexivity).
    rewrite forallb_forall in G. specialize (G n). rewrite In_range in G.
    specialize (G ltac:(lia)). apply andb_true_iff in G. destruct G as [G1 G2].
    apply eqb_prop in G1, G2. now rewrite G1, G2.
  - split; apply testbit_above_pow2 with 32; try lia; vm_compute; split; congruence.
Qed.

Lemma xy_low_bits (c : ZCurve.t) (k : Z) :
  0 <= k ->
  (forall n, k <= n -> (n <? 16) && Z.testbit (ZCurve.z c) (2 * n) = false) ->
  (forall n, k <= n -> (n <? 16) && Z.testbit (ZCurve.z c) (2 * n + 1) = false) ->
  0 <= fst (ZCurve.xy c) < 2 ^ k /\ 0 <= snd (ZCurve.xy c) < 2 ^ k.
Proof.
  intros Hk Hx Hy.
  assert (Ex : fst (ZCurve.xy c) = fst (ZCurve.xy c) mod 2 ^ k).
  { apply Z.bits_inj'. intros n Hn. rewrite Z.testbit_mod_pow2 by lia.
    destruct (xy_testbit c n Hn) as [-> _].
    destruct (Z.ltb_spec n k); [reflexivity|]. now rewrite Hx by lia. }
  assert (Ey : snd (ZCurve.xy c) = snd (ZCurve.xy c) mod 2 ^ k).
  { apply Z.bits_inj'. intros n Hn. rewrite Z.testbit_mod_pow2 by lia.
    destruct (xy_testbit c n Hn) as [_ ->].
    destruct (Z.ltb_spec n k); [reflexivity|]. now rewrite Hy by lia. }
  rewrite Ex, Ey. split; apply Z.mod_pos_bound, Z.pow_pos_nonneg; lia.
Qed.

(** [xy] returns two indices below [2^16] on every cell, whatever
    its position and depth, and below [2^depth] on a well-formed cell. *)
Theorem xy_bounds (c : ZCurve.t) :
  (0 <= fst (ZCurve.xy c) < 2 ^ 16 /\ 0 <= snd (ZCurve.xy c) < 2 ^ 16) /\
  (well_formed c ->
   0 <= fst (ZCurve.xy c) < 2 ^ Z.of_nat (ZCurve.depth c) /\
   0 <= snd (ZCurve.xy c) < 2 ^ Z.of_nat (ZCurve.depth c)).
Proof.
  split.
  - apply xy_low_bits; [lia| |]; intros n Hn;
      destruct (Z.ltb_spec n 16); try lia; reflexivity.
  - intros Hw. unfold well_formed in Hw. rewrite pow4_pow2 in Hw.
    apply xy_low_bits; [lia| |]; intros n Hn;
      rewrite (testbit_above_pow2 (ZCurve.z c) (2 * Z.of_nat (ZCurve.depth c)))
        by lia; apply andb_false_r.
Qed.

Lemma xy_bounds_witness :
  0 <= fst (ZCurve.xy (ZCurve.Build 9 2 false)) < 2 ^ Z.of_nat 2 /\
  0 <= snd (ZCurve.xy (ZCurve.Build 9 2 false)) < 2 ^ Z.of_nat 2.
Proof.
  apply (xy_bounds (ZCurve.Build 9 2 false)). unfold well_formed. cbn. lia.
Defined.

Lemma interleave_xy (c : ZCurve.t) :
  0 <= ZCurve.z c < 2 ^ 32 ->
  interleave (fst (ZCurve.xy c)) (snd (ZCurve.xy c)) = ZCurve.z c.
Proof.
  intros Hz. apply Z.bits_inj'. intros n Hn.
  rewrite interleave_testbit by lia.
  assert (Hh : 0 <= n / 2) by (apply Z.div_pos; lia).
  destruct (xy_testbit c (n / 2) Hh) as [-> ->].
  destruct (Z.ltb_spec n 32) as [H|H].
  - replace (n <? 64) with true by (symmetry; apply Z.ltb_lt; lia).
    replace (n / 2 <? 16) with true by (symmetry; apply Z.ltb_lt; divmod).
    cbn [andb].
    destruct (Z.eqb_spec (n mod 2) 0) as [E|E]; f_equal; divmod.
  - rewrite (testbit_above_pow2 (ZCurve.z c) 32 n) by lia.
    replace (n / 2 <? 16) with false by (symmetry; apply Z.ltb_ge; divmod).
    cbn [andb]. destruct (n mod 2 =? 0); apply andb_false_r.
Qed.

(** Decoding then encoding: on a well-formed cell of depth at most 16,
    [fromXY(c.xy(), c.depth)] returns the cell with the same position and
    depth (and [halfsplit = False]). *)
Theorem xy_fromXY_roundtrip (c : ZCurve.t) :
  well_formed c -> (ZCurve.depth c <= 16)%nat ->
  ZCurve.fromXY (ZCurve.xy c) (ZCurve.depth c) =
  Ok (ZCurve.Build (ZCurve.z c) (ZCurve.depth c) false).
Proof.
  intros Hw Hd. destruct (xy_bounds c) as [_ B]. specialize (B Hw).
  rewrite (surjective_pairing (ZCurve.xy c)).
  rewrite fromXY_ok by apply B.
  rewrite interleave_xy; [reflexivity|].
  unfold well_formed in Hw. rewrite pow4_pow2 in Hw.
  assert (2 ^ (2 * Z.of_nat (ZCurve.depth c)) <= 2 ^ 32)
    by (apply Z.pow_le_mono_r; lia).
  lia.
Qed.

Lemma xy_fromXY_roundtrip_witness :
  ZCurve.fromXY (ZCurve.xy (ZCurve.Build 9 2 true)) 2 = Ok (ZCurve.Build 9 2 false).
Proof.
  apply (xy_fromXY_roundtrip (ZCurve.Build 9 2 true)).
  - unfold well_formed. cbn. lia.
  - cbn. lia.
Defined.

(** The interleaving convention: in the position [fromXY] builds, bit
    [2i] is bit [i] of [x] and bit [2i+1] is bit [i] of [y] for every
    [i < 32], and no bit from 64 on is set. *)
Theorem fromXY_bits (x y : Z) (d : nat) (c : ZCurve.t) :
  ZCurve.fromXY (x, y) d = Ok c ->
  (forall i, 0 <= i < 32 ->
     Z.testbit (ZCurve.z c) (2 * i) = Z.testbit x i /\
     Z.testbit (ZCurve.z c) (2 * i + 1) = Z.testbit y i) /\
  (forall n, 64 <= n -> Z.testbit (ZCurve.z c) n = false) /\
  ZCurve.depth c = d /\ ZCurve.halfsplit c = false.
Proof.
  intros H.
  assert (Hx : x < 2 ^ Z.of_nat d /\ y < 2 ^ Z.of_nat d).
  { destruct (Z_lt_ge_dec x (2 ^ Z.of_nat d)) as [Gx|Gx];
      [|rewrite fromXY_guard in H by (now left); discriminate].
    destruct (Z_lt_ge_dec y (2 ^ Z.of_nat d)) as [Gy|Gy];
      [|rewrite fromXY_guard in H by (now right); discriminate].
    now split. }
  rewrite fromXY_unfold in H by apply Hx. apply init_inv in H.
  destruct H as [-> _]. cbn [ZCurve.z ZCurve.depth ZCurve.halfsplit].
  repeat split.
  - rewrite interleave_testbit by lia.
    replace (2 * i mod 2) with 0 by divmod.
    replace (2 * i / 2) with i by divmod.
    replace (2 * i <? 64) with true by (symmetry; apply Z.ltb_lt; lia).
    reflexivity.
  - rewrite interleave_testbit by lia.
    replace ((2 * i + 1) mod 2) with 1 by divmod.
    replace ((2 * i + 1) / 2) with i by divmod.
    replace (2 * i + 1 <? 64) with true by (symmetry; apply Z.ltb_lt; lia).
    reflexivity.
  - intros n Hn. rewrite interleave_testbit by lia.
    now replace (n <? 64) with false by (symmetry; apply Z.ltb_ge; lia).
Qed.

Lemma fromXY_bits_witness :
  (forall i, 0 <= i < 32 ->
     Z.testbit (ZCurve.z (ZCurve.Build 27 3 false)) (2 * i) = Z.testbit 5 i /\
     Z.testbit (ZCurve.z (ZCurve.Build 27 3 false)) (2 * i + 1) = Z.testbit 3 i) /\
  (forall n, 64 <= n -> Z.testbit (ZCurve.z (ZCurve.Build 27 3 false)) n = false) /\
  ZCurve.depth (ZCurve.Build 27 3 false) = 3%nat /\
  ZCurve.halfsplit (ZCurve.Build 27 3 false) = false.
Proof.
  apply (fromXY_bits 5 3 3 (ZCurve.Build 27 3 false)). vm_compute. reflexivity.
Defined.

(** [debruijn] splits the low 32 bits of the position: its two components
    are the positions [fromXY] would build from [x] alone and from [y]
    alone, they share no bit, and they add up to the position modulo
    [2^32]. *)
Theorem debruijn_spread (c : ZCurve.t) :
  fst (ZCurve.debruijn c) = interleave (fst (ZCurve.xy c)) 0 /\
  snd (ZCurve.debruijn c) = interleave 0 (snd (ZCurve.xy c)) /\
  Z.land (fst (ZCurve.debruijn c)) (snd (ZCurve.debruijn c)) = 0 /\
  fst (ZCurve.debruijn c) + snd (ZCurve.debruijn c) = ZCurve.z c mod 2 ^ 32.
Proof.
  unfold ZCurve.debruijn. cbn [fst snd].
  assert (B : forall n, 0 <= n -> 0 <= n / 2) by (intros; apply Z.div_pos; lia).
  repeat split.
  - apply Z.bits_inj'. intros n Hn. rewrite Z.land_spec, interleave_testbit by lia.
    destruct (mask_bits n Hn) as [-> _].
    destruct (xy_testbit c (n / 2) (B n Hn)) as [-> _]. rewrite Z.bits_0.
    destruct (Z.eqb_spec (n mod 2) 0) as [E|E]; [|now rewrite !andb_false_r].
    replace (2 * (n / 2)) with n by divmod.
    destruct (Z.ltb_spec n 32).
    + replace (n <? 64) with true by (symmetry; apply Z.ltb_lt; lia).
      replace (n / 2 <? 16) with true by (symmetry; apply Z.ltb_lt; divmod).
      cbn. now rewrite andb_true_r.
    + replace (n / 2 <? 16) with false by (symmetry; apply Z.ltb_ge; divmod).
      cbn. now rewrite !andb_false_r.
  - apply Z.bits_inj'. intros n Hn. rewrite Z.land_spec, interleave_testbit by lia.
    destruct (mask_bits n Hn) as [_ ->].
    destruct (xy_testbit c (n / 2) (B n Hn)) as [_ ->]. rewrite Z.bits_0.
    destruct (Z.eqb_spec (n mod 2) 0) as [E|E]; [now rewrite !andb_false_r|].
    replace (2 * (n / 2) + 1) with n by divmod.
    destruct (Z.ltb_spec n 32).
    + replace (n <? 64) with true by (symmetry; apply Z.ltb_lt; lia).
      replace (n / 2 <? 16) with true by (symmetry; apply Z.ltb_lt; divmod).
      cbn. now rewrite andb_true_r.
    + replace (n / 2 <? 16) with false by (symmetry; apply Z.ltb_ge; divmod).
      cbn. now rewrite !andb_false_r.
  - apply Z.bits_inj'. intros n Hn. rewrite !Z.land_spec, Z.bits_0.
    pose proof (axis_bits_disjoint _ _ ODD_EVEN_disjoint n) as D.
    destruct (Z.testbit ZCurve.ODDBITS n), (Z.testbit ZCurve.EVENBITS n);
      try discriminate; now rewrite ?andb_false_r.
  - apply (axis_split _ _ ODD_EVEN_disjoint ODD_EVEN_cover).
Qed.

(** ** Strings of bits *)

Lemma bitchar_binary (b : bool) : bitchar b = "0"%char \/ bitchar b = "1"%char.
Proof. destruct b; auto. Qed.

(** [str(c)] has [2 * depth] characters, one less for a half-split cell of
    depth at least 1, and each of them is 0 or 1; this holds for every
    position, also a negative one. *)
Theorem toString_shape (c : ZCurve.t) :
  List.length (ZCurve.toString c) =
    (2 * ZCurve.depth c - (if ZCurve.halfsplit c then 1 else 0))%nat /\
  Forall (fun ch => ch = "0"%char \/ ch = "1"%char) (ZCurve.toString c).
Proof.
  split; [apply toString_length|].
  rewrite toString_bits. apply Forall_forall. intros ch Hch.
  apply in_map_iff in Hch. destruct Hch as [b [<- _]]. apply bitchar_binary.
Qed.

Lemma lsb_value_bound (bs : list bool) :
  0 <= lsb_value bs < 2 ^ Z.of_nat (List.length bs).
Proof.
  induction bs as [|b bs IH]; cbn [lsb_value fold_right List.length].
  - cbn. lia.
  - fold (lsb_value bs). rewrite Nat2Z.inj_succ, Z.pow_succ_r by lia.
    destruct b; cbn [Z.b2z]; lia.
Qed.

Lemma int2_bits (bs : list bool) :
  bs <> [] -> int2 (map bitchar bs) = Ok (lsb_value (rev bs)).
Proof.
  intros H. rewrite int2_nonempty by (destruct bs; [congruence|discriminate]).
  rewrite <- (rev_involutive bs) at 1. rewrite int2_digits_bits. f_equal; lia.
Qed.

Lemma range_succ (lo hi : Z) : range (lo + 1) (hi + 1) = map Z.succ (range lo hi).
Proof.
  unfold range. rewrite map_map.
  replace (hi + 1 - (lo + 1)) with (hi - lo) by lia.
  apply map_ext. intros k. lia.
Qed.

Lemma testbits_lsb_value_tail (b : bool) (bs : list bool) :
  map (Z.testbit (lsb_value (b :: bs))) (range 1 (Z.of_nat (List.length bs) + 1)) =
  map (Z.testbit (lsb_value bs)) (range 0 (Z.of_nat (List.length bs))).
Proof.
  change 1 with (0 + 1) at 1. rewrite range_succ, map_map.
  apply map_ext_in. intros n Hn. apply In_range in Hn.
  cbn [lsb_value fold_right]. fold (lsb_value bs).
  rewrite Z.add_comm. apply Z.testbit_succ_r. lia.
Qed.

Lemma testbits_lsb_value (bs : list bool) :
  map (Z.testbit (lsb_value bs)) (range 0 (Z.of_nat (List.length bs))) = bs.
Proof.
  induction bs as [|b bs IH]; [reflexivity|].
  cbn [List.length]. rewrite Nat2Z.inj_succ, range_cons by lia.
  cbn [map]. f_equal.
  - cbn [lsb_value fold_right]. rewrite Z.add_comm. apply Z.testbit_0_r.
  - replace (Z.succ (Z.of_nat (List.length bs))) with (Z.of_nat (List.length bs) + 1)
      by lia.
    cbn [Z.add]. rewrite testbits_lsb_value_tail. exact IH.
Qed.

Lemma fromBitstring_bits (bs : list bool) :
  bs <> [] ->
  ZCurve.fromBitstring (map bitchar bs) =
  Ok (ZCurve.Build
        (lsb_value (rev (if Nat.odd (List.length bs) then bs ++ [false] else bs)))
        ((List.length bs + 1) / 2) (Nat.odd (List.length bs))).
Proof.
  intros Hne. unfold ZCurve.fromBitstring. rewrite length_map.
  assert (Hodd : negb (Z.of_nat (List.length bs) mod 2 =? 0) = Nat.odd (List.length bs)).
  { destruct (Nat.odd (List.length bs)) eqn:E.
    - apply Nat.odd_spec in E. destruct E as [m E]. rewrite E.
      replace (Z.of_nat (2 * m + 1) mod 2) with 1 by divmod. reflexivity.
    - rewrite <- Nat.negb_even in E. apply negb_false_iff, Nat.even_spec in E.
      destruct E as [m E]. rewrite E.
      replace (Z.of_nat (2 * m) mod 2) with 0 by divmod. reflexivity. }
  rewrite Hodd.
  assert (Hpar : exists m, List.length bs =
                           if Nat.odd (List.length bs) then (2 * m + 1)%nat
                           else (2 * m)%nat).
  { destruct (Nat.odd (List.length bs)) eqn:E.
    - apply Nat.odd_spec in E. exact E.
    - rewrite <- Nat.negb_even in E. apply negb_false_iff, Nat.even_spec in E.
      exact E. }
  destruct Hpar as [m Hm].
  destruct (Nat.odd (List.length bs)).
  - change ["0"%char] with (map bitchar [false]). rewrite <- map_app, length_map.
    rewrite int2_bits by (destruct bs; discriminate). cbn [bind].
    rewrite length_app. cbn [List.length].
    replace ((List.length bs + 1) / 2)%nat with (m + 1)%nat
      by (rewrite Hm; apply Nat.div_unique with 0%nat; lia).
    apply init_ok. rewrite pow4_pow2.
    pose proof (lsb_value_bound (rev (bs ++ [false]))) as B.
    rewrite length_rev, length_app in B. cbn [List.length] in B.
    replace (Z.of_nat (List.length bs + 1)) with (2 * Z.of_nat (m + 1)) in B by lia.
    lia.
  - rewrite int2_bits by exact Hne. cbn [bind]. rewrite length_map.
    replace (List.length bs / 2)%nat with m
      by (rewrite Hm; apply Nat.div_unique with 0%nat; lia).
    replace ((List.length bs + 1) / 2)%nat with m
      by (rewrite Hm; apply Nat.div_unique with 1%nat; lia).
    apply init_ok. rewrite pow4_pow2.
    pose proof (lsb_value_bound (rev bs)) as B. rewrite length_rev in B.
    replace (Z.of_nat (List.length bs)) with (2 * Z.of_nat m) in B by lia.
    lia.
Qed.

(** [fromBitstring] on a string of the characters 0 and 1 raises
    [ValueError] exactly when the string is empty; otherwise it returns a
    well-formed cell of depth [ceil(len / 2)], half-split exactly when the
    length is odd, and then with an even position. *)
Theorem fromBitstring_shape (bs : list bool) :
  (bs = [] -> ZCurve.fromBitstring (map bitchar bs) = Raise ValueError) /\
  (bs <> [] ->
   exists c, ZCurve.fromBitstring (map bitchar bs) = Ok c /\
             ZCurve.depth c = ((List.length bs + 1) / 2)%nat /\
             ZCurve.halfsplit c = Nat.odd (List.length bs) /\
             well_formed c /\
             (ZCurve.halfsplit c = true -> ZCurve.z c mod 2 = 0)).
Proof.
  split; [intros ->; reflexivity|].
  intros Hne. eexists. split; [now apply fromBitstring_bits|].
  cbn [ZCurve.depth ZCurve.halfsplit ZCurve.z]. split; [reflexivity|].
  split; [reflexivity|].
  assert (C : constructed
                (ZCurve.Build
                   (lsb_value (rev (if Nat.odd (List.length bs)
                                    then bs ++ [false] else bs)))
                   ((List.length bs + 1) / 2) (Nat.odd (List.length bs)))).
  { pose proof (fromBitstring_bits bs Hne) as H.
    unfold ZCurve.fromBitstring in H.
    destruct (int2 _) as [v|e]; cbn [bind] in H; [|discriminate].
    apply init_inv in H. destruct H as [H1 H2]. rewrite H1. rewrite H1 in H2.
    exact H2. }
  split.
  - unfold well_formed, constructed in *. cbn [ZCurve.z ZCurve.depth] in *.
    pose proof (lsb_value_bound (rev (if Nat.odd (List.length bs)
                                      then bs ++ [false] else bs))).
    lia.
  - intros Ho. rewrite Ho. rewrite rev_app_distr. cbn [rev app lsb_value fold_right].
    fold (lsb_value (rev bs)). cbn [Z.b2z]. divmod.
Qed.

Lemma fromBitstring_shape_witness :
  exists c, ZCurve.fromBitstring (map bitchar [true; false; true]) = Ok c /\
            ZCurve.depth c = ((List.length [true; false; true] + 1) / 2)%nat /\
            ZCurve.halfsplit c = Nat.odd (List.length [true; false; true]) /\
            well_formed c /\
            (ZCurve.halfsplit c = true -> ZCurve.z c mod 2 = 0).
Proof.
  apply (fromBitstring_shape [true; false; true]). discriminate.
Defined.

(** From a string to a cell and back: for every non-empty string of the
    characters 0 and 1, [str(fromBitstring(s))] is [s] again. *)
Theorem fromBitstring_toString (bs : list bool) :
  bs <> [] ->
  exists c, ZCurve.fromBitstring (map bitchar bs) = Ok c /\
            ZCurve.toString c = map bitchar bs.
Proof.
  intros Hne. eexists. split; [now apply fromBitstring_bits|].
  rewrite toString_bits. cbn [ZCurve.z ZCurve.depth ZCurve.halfsplit]. f_equal.
  destruct (Nat.odd (List.length bs)) eqn:E.
  - apply Nat.odd_spec in E. destruct E as [m E].
    replace ((List.length bs + 1) / 2)%nat with (m + 1)%nat
      by (rewrite E; apply Nat.div_unique with 0%nat; lia).
    rewrite rev_app_distr. cbn [rev app].
    replace (Z.of_nat (m + 1) * 2) with (Z.of_nat (List.length (rev bs)) + 1)
      by (rewrite length_rev; lia).
    rewrite testbits_lsb_value_tail, testbits_lsb_value. apply rev_involutive.
  - rewrite <- Nat.negb_even in E. apply negb_false_iff, Nat.even_spec in E.
    destruct E as [m E].
    replace ((List.length bs + 1) / 2)%nat with m
      by (rewrite E; apply Nat.div_unique with 1%nat; lia).
    replace (Z.of_nat m * 2) with (Z.of_nat (List.length (rev bs)))
      by (rewrite length_rev; lia).
    rewrite testbits_lsb_value. apply rev_involutive.
Qed.

Lemma fromBitstring_toString_witness :
  exists c, ZCurve.fromBitstring (map bitchar [false; true; true]) = Ok c /\
            ZCurve.toString c = map bitchar [false; true; true].
Proof.
  apply (fromBitstring_toString [false; true; true]). discriminate.
Defined.

(** A cell of depth 0 has the empty string, which [fromBitstring] rejects:
    no cell of depth 0 can be read back from its string. *)
Theorem depth0_string_rejected (c : ZCurve.t) :
  ZCurve.depth c = 0%nat ->
  ZCurve.toString c = [] /\
  ZCurve.fromBitstring (ZCurve.toString c) = Raise ValueError.
Proof.
  intros H.
  assert (E : ZCurve.toString c = []).
  { rewrite toString_bits, H, range_nil by (destruct (ZCurve.halfsplit c); lia).
    reflexivity. }
  rewrite E. split; reflexivity.
Qed.

Lemma depth0_string_rejected_witness :
  ZCurve.toString (ZCurve.Build 0 0 true) = [] /\
  ZCurve.fromBitstring (ZCurve.toString (ZCurve.Build 0 0 true)) = Raise ValueError.
Proof.
  apply (depth0_string_rejected (ZCurve.Build 0 0 true)). reflexivity.
Defined.

(** ** More on the quadtree *)

(** Going up [k1] levels and then [k2] levels is going up [k1 + k2]
    levels, also when this runs past depth 0. *)
Theorem parent_parent (c : ZCurve.t) (k1 k2 : nat) :
  constructed c ->
  exists p, ZCurve.parent c k1 = Ok p /\
            ZCurve.parent p k2 = ZCurve.parent c (k1 + k2).
Proof.
  intros Hc. eexists. split; [now apply parent_ok|].
  assert (Hp : constructed (ZCurve.Build (ZCurve.z c / 4 ^ Z.of_nat k1)
                                         (ZCurve.depth c - k1) false)).
  { pose proof (parent_ok c k1 Hc) as H. unfold ZCurve.parent in H.
    apply init_inv in H. destruct H as [_ H2]. exact H2. }
  rewrite (parent_ok _ k2 Hp), (parent_ok c (k1 + k2) Hc).
  cbn [ZCurve.z ZCurve.depth]. do 2 f_equal.
  - rewrite pow4_add. apply Z.div_div; [pose proof (pow4_pos k1); lia|apply pow4_pos].
  - lia.
Qed.

Lemma parent_parent_witness :
  exists p, ZCurve.parent (ZCurve.Build 27 3 true) 1 = Ok p /\
            ZCurve.parent p 4 = ZCurve.parent (ZCurve.Build 27 3 true) (1 + 4).
Proof.
  apply (parent_parent (ZCurve.Build 27 3 true) 1 4). unfold constructed. cbn. lia.
Defined.

(** [children(k)] lists exactly the cells of depth [depth + k] with
    [halfsplit = False] whose [parent(k)] is the cell (without its flag). *)
Theorem children_complete (c : ZCurve.t) (k : nat) :
  constructed c ->
  exists l, ZCurve.children c k = Ok l /\
            forall d, In d l <->
                      (ZCurve.depth d = (ZCurve.depth c + k)%nat /\
                       ZCurve.halfsplit d = false /\
                       ZCurve.parent d k =
                       Ok (ZCurve.Build (ZCurve.z c) (ZCurve.depth c) false)).
Proof.
  intros Hc. exists (child_cells c k). split; [now apply children_ok|].
  pose proof (pow4_pos k) as Hk. intros d. rewrite child_cells_In. split.
  - intros [j [Hj ->]]. cbn [ZCurve.depth ZCurve.halfsplit].
    split; [reflexivity|]. split; [reflexivity|].
    rewrite parent_ok by (unfold constructed in *; cbn; rewrite pow4_add; nia).
    cbn [ZCurve.z ZCurve.depth]. do 2 f_equal; [|lia].
    symmetry. apply Z.div_unique with j; lia.
  - intros [Hd [Hh Hp]]. unfold ZCurve.parent in Hp. apply init_inv in Hp.
    destruct Hp as [Hp _]. apply (f_equal ZCurve.z) in Hp.
    cbn [ZCurve.z] in Hp. rename Hp into Hz. rewrite shiftr_pow4 in Hz.
    exists (ZCurve.z d mod 4 ^ Z.of_nat k).
    split; [apply Z.mod_pos_bound; lia|].
    destruct d as [zd dd hd]. cbn in *. subst dd hd. f_equal.
    rewrite Hz. pose proof (Z.div_mod zd (4 ^ Z.of_nat k)). lia.
Qed.

Lemma children_complete_witness :
  exists l, ZCurve.children (ZCurve.Build 3 1 true) 1 = Ok l /\
            forall d, In d l <->
                      (ZCurve.depth d = (1 + 1)%nat /\
                       ZCurve.halfsplit d = false /\
                       ZCurve.parent d 1 = Ok (ZCurve.Build 3 1 false)).
Proof.
  apply (children_complete (ZCurve.Build 3 1 true) 1). unfold constructed. cbn. lia.
Defined.

(** ** Containment and ordering *)

(** When [__contains__] answers [True]: on equal depths for the cell
    itself; on a deeper cell when the cell has [halfsplit = False] and its
    position is the other's position shifted right by twice the difference
    of depths. *)
Theorem contains_spec (self other : ZCurve.t) :
  constructed other ->
  (exists b, ZCurve.contains self other = Ok b) /\
  (ZCurve.contains self other = Ok true <->
   (ZCurve.depth self = ZCurve.depth other /\ self = other) \/
   ((ZCurve.depth self < ZCurve.depth other)%nat /\
    ZCurve.halfsplit self = false /\
    ZCurve.z self =
    ZCurve.z other / 4 ^ Z.of_nat (ZCurve.depth other - ZCurve.depth self))).
Proof.
  intros Ho. unfold ZCurve.contains.
  destruct (Nat.ltb_spec (ZCurve.depth other) (ZCurve.depth self)) as [L|L].
  { split; [eauto|]. split; [discriminate|]. intros [[H _]|[H _]]; lia. }
  destruct (Nat.ltb_spec (ZCurve.depth self) (ZCurve.depth other)) as [L'|L'].
  - rewrite parent_ok by exact Ho. cbn [bind]. split; [eauto|].
    replace (ZCurve.depth other - (ZCurve.depth other - ZCurve.depth self))%nat
      with (ZCurve.depth self) by lia.
    split.
    + intros [= H]. right. apply equals_true_iff in H.
      split; [exact L'|]. rewrite H. cbn. split; reflexivity.
    + intros [[H _]|[_ [Hh Hz]]]; [lia|]. f_equal. apply equals_true_iff.
      destruct self as [zs ds hs]. cbn in *. now subst.
  - split; [eauto|]. split.
    + intros [= H]. left. apply equals_true_iff in H. split; [lia|exact H].
    + intros [[_ H]|[H _]]; [|lia]. f_equal. now apply equals_true_iff.
Qed.

Lemma contains_spec_witness :
  (exists b, ZCurve.contains (ZCurve.Build 1 1 false) (ZCurve.Build 6 2 false) = Ok b) /\
  (ZCurve.contains (ZCurve.Build 1 1 false) (ZCurve.Build 6 2 false) = Ok true <->
   (ZCurve.depth (ZCurve.Build 1 1 false) = ZCurve.depth (ZCurve.Build 6 2 false) /\
    ZCurve.Build 1 1 false = ZCurve.Build 6 2 false) \/
   ((ZCurve.depth (ZCurve.Build 1 1 false) < ZCurve.depth (ZCurve.Build 6 2 false))%nat /\
    ZCurve.halfsplit (ZCurve.Build 1 1 false) = false /\
    ZCurve.z (ZCurve.Build 1 1 false) =
    ZCurve.z (ZCurve.Build 6 2 false)
    / 4 ^ Z.of_nat (ZCurve.depth (ZCurve.Build 6 2 false)
                    - ZCurve.depth (ZCurve.Build 1 1 false)))).
Proof.
  apply (contains_spec (ZCurve.Build 1 1 false) (ZCurve.Build 6 2 false)).
  unfold constructed. cbn. lia.
Defined.

(** A cell with [halfsplit = False] contains every cell that
    [children] returns for it, at every offset. *)
Theorem contains_children (c : ZCurve.t) (k : nat) :
  constructed c -> ZCurve.halfsplit c = false ->
  exists l, ZCurve.children c k = Ok l /\
            forall d, In d l -> ZCurve.contains c d = Ok true.
Proof.
  intros Hc Hh. exists (child_cells c k). split; [now apply children_ok|].
  intros d Hd. pose proof (pow4_pos k) as Hk.
  pose proof (proj1 (child_cells_In c k d) Hd) as [j [Hj E]].
  assert (Cd : constructed d).
  { subst d. unfold constructed in *. cbn. rewrite pow4_add. nia. }
  apply (contains_spec c d Cd). subst d. cbn [ZCurve.z ZCurve.depth].
  destruct k as [|k].
  - left. split; [lia|]. destruct c as [zc dc hc]. cbn in *. subst hc.
    f_equal; lia.
  - right. split; [lia|]. split; [exact Hh|].
    replace (ZCurve.depth c + S k - ZCurve.depth c)%nat with (S k) by lia.
    apply Z.div_unique with j; lia.
Qed.

Lemma contains_children_witness :
  exists l, ZCurve.children (ZCurve.Build 2 1 false) 2 = Ok l /\
            forall d, In d l -> ZCurve.contains (ZCurve.Build 2 1 false) d = Ok true.
Proof.
  apply (contains_children (ZCurve.Build 2 1 false) 2).
  - unfold constructed. cbn. lia.
  - reflexivity.
Defined.

(** A half-split cell contains no cell but itself: against a deeper cell
    the comparison with the parent, which is never half-split, fails. *)
Theorem halfsplit_contains_only_itself (self other : ZCurve.t) :
  constructed other -> ZCurve.halfsplit self = true ->
  ZCurve.contains self other = Ok true -> other = self.
Proof.
  intros Ho Hh H. apply (contains_spec self other Ho) in H.
  destruct H as [[_ H]|[_ [H _]]]; congruence.
Qed.

Lemma halfsplit_contains_only_itself_witness :
  ZCurve.Build 2 1 true = ZCurve.Build 2 1 true.
Proof.
  apply (halfsplit_contains_only_itself (ZCurve.Build 2 1 true) (ZCurve.Build 2 1 true)).
  - unfold constructed. cbn. lia.
  - reflexivity.
  - vm_compute. reflexivity.
Defined.

(** Containment is transitive. *)
Theorem contains_transitive (a b c : ZCurve.t) :
  constructed b -> constructed c ->
  ZCurve.contains a b = Ok true -> ZCurve.contains b c = Ok true ->
  ZCurve.contains a c = Ok true.
Proof.
  intros Hb Hc Hab Hbc.
  apply (contains_spec a b Hb) in Hab. apply (contains_spec b c Hc) in Hbc.
  apply (contains_spec a c Hc).
  destruct Hab as [[_ ->]|[L1 [Hh1 Hz1]]]; [exact Hbc|].
  destruct Hbc as [[_ <-]|[L2 [Hh2 Hz2]]]; [right; auto|].
  right. split; [lia|]. split; [exact Hh1|].
  rewrite Hz1, Hz2.
  replace (ZCurve.depth c - ZCurve.depth a)%nat
    with ((ZCurve.depth c - ZCurve.depth b) + (ZCurve.depth b - ZCurve.depth a))%nat
    by lia.
  rewrite pow4_add. apply Z.div_div.
  - pose proof (pow4_pos (ZCurve.depth c - ZCurve.depth b)). lia.
  - apply pow4_pos.
Qed.

Lemma contains_transitive_witness :
  ZCurve.contains (ZCurve.Build 0 0 false) (ZCurve.Build 27 3 false) = Ok true.
Proof.
  apply (contains_transitive (ZCurve.Build 0 0 false) (ZCurve.Build 1 1 false)
           (ZCurve.Build 27 3 false)).
  - unfold constructed. cbn. lia.
  - unfold constructed. cbn. lia.
  - vm_compute. reflexivity.
  - vm_compute. reflexivity.
Defined.

(** The four comparisons only look at the depths.  [a < b] is [b > a]
    and holds when [a] is the deeper cell; of two cells of different depths
    exactly one is less than the other; but [a <= b] holds exactly when
    [a < b] does not, and [a >= b] exactly when [a > b] does not; and a
    cell never contains a cell that is greater than it. *)
Theorem ordering_by_depth (a b : ZCurve.t) :
  ZCurve.lt a b = ZCurve.gt b a /\
  ZCurve.lt a b = Nat.ltb (ZCurve.depth b) (ZCurve.depth a) /\
  (ZCurve.depth a <> ZCurve.depth b -> xorb (ZCurve.lt a b) (ZCurve.lt b a) = true) /\
  ZCurve.le a b = negb (ZCurve.lt a b) /\
  ZCurve.ge a b = negb (ZCurve.gt a b) /\
  (ZCurve.gt b a = true -> ZCurve.contains a b = Ok false).
Proof.
  unfold ZCurve.lt, ZCurve.gt, ZCurve.le, ZCurve.ge, ZCurve.contains.
  repeat split.
  - intros H.
    destruct (Nat.ltb_spec (ZCurve.depth b) (ZCurve.depth a)),
             (Nat.ltb_spec (ZCurve.depth a) (ZCurve.depth b)); cbn; auto; lia.
  - apply Nat.leb_antisym.
  - apply Nat.leb_antisym.
  - intros H. now rewrite H.
Qed.

Lemma ordering_by_depth_witness :
  xorb (ZCurve.lt (ZCurve.Build 0 1 false) (ZCurve.Build 5 2 false))
       (ZCurve.lt (ZCurve.Build 5 2 false) (ZCurve.Build 0 1 false)) = true.
Proof.
  apply (proj1 (proj2 (proj2
           (ordering_by_depth (ZCurve.Build 0 1 false) (ZCurve.Build 5 2 false))))).
  cbn. lia.
Defined.

(** ** Addition and neighbours in grid coordinates *)

Lemma testbit_4 (a r n : Z) :
  0 <= r < 4 -> 0 <= n ->
  Z.testbit (4 * a + r) n = if n <? 2 then Z.testbit r n else Z.testbit a (n - 2).
Proof.
  intros Hr Hn. destruct (Z.ltb_spec n 2) as [H|H].
  - rewrite <- (Z.mod_pow2_bits_low (4 * a + r) 2 n) by lia.
    change (2 ^ 2) with 4. f_equal. divmod.
  - replace n with (n - 2 + 2) at 1 by lia.
    rewrite <- Z.div_pow2_bits by lia. change (2 ^ 2) with 4. f_equal. divmod.
Qed.

Lemma land_4_1 (a b r : Z) :
  0 <= r < 4 -> Z.land (4 * a + r) (4 * b + 1) = 4 * Z.land a b + r mod 2.
Proof.
  intros Hr. apply Z.bits_inj'. intros n Hn.
  rewrite Z.land_spec, !testbit_4 by (try lia; divmod).
  destruct (Z.ltb_spec n 2) as [H|H]; [|now rewrite Z.land_spec].
  assert (Hc : (r = 0 \/ r = 1 \/ r = 2 \/ r = 3) /\ (n = 0 \/ n = 1)) by lia.
  destruct Hc as [[ -> | [ -> | [ -> | -> ]]] [ -> | -> ]]; reflexivity.
Qed.

Lemma land_double (u m : Z) : Z.land (2 * u) (2 * m) = 2 * Z.land u m.
Proof.
  replace (2 * u) with (Z.shiftl u 1) by (rewrite Z.shiftl_mul_pow2; lia).
  replace (2 * m) with (Z.shiftl m 1) by (rewrite Z.shiftl_mul_pow2; lia).
  replace (2 * Z.land u m) with (Z.shiftl (Z.land u m) 1)
    by (rewrite Z.shiftl_mul_pow2; lia).
  symmetry. apply Z.shiftl_land.
Qed.

Lemma land_double_succ (u m : Z) : Z.land (2 * u + 1) (2 * m) = 2 * Z.land u m.
Proof.
  rewrite <- land_double. apply Z.bits_inj'. intros n Hn. rewrite !Z.land_spec.
  destruct (Z.eq_dec n 0) as [->|Hne].
  - now rewrite !Z.testbit_even_0, !andb_false_r.
  - replace n with (Z.succ (n - 1)) by lia.
    change (2 * u + 1) with (2 * u + Z.b2z true).
    rewrite Z.testbit_succ_r, !Z.double_bits_succ by lia. reflexivity.
Qed.

Lemma land_low (x m k : Z) :
  0 <= k -> 0 <= m < 2 ^ k -> Z.land x m = Z.land (x mod 2 ^ k) m.
Proof.
  intros Hk Hm. apply Z.bits_inj'. intros n Hn.
  rewrite !Z.land_spec, Z.testbit_mod_pow2 by lia.
  destruct (Z.ltb_spec n k); [reflexivity|].
  rewrite (testbit_above_pow2 m k n) by lia. now rewrite !andb_false_r.
Qed.

Lemma spread_testbit (w : nat) (x n : Z) :
  0 <= n ->
  Z.testbit (spread w x) n =
  (n <? 2 * Z.of_nat w) && (n mod 2 =? 0) && Z.testbit x (n / 2).
Proof.
  revert x n. induction w as [|w IH]; intros x n Hn.
  - cbn [spread]. rewrite Z.bits_0.
    now replace (n <? 2 * Z.of_nat 0) with false by (symmetry; apply Z.ltb_ge; lia).
  - cbn [spread]. pose proof (Z.mod_pos_bound x 2 ltac:(lia)) as Hb.
    rewrite testbit_4 by lia.
    destruct (Z.ltb_spec n 2) as [H|H].
    + assert (Hc : n = 0 \/ n = 1) by lia. destruct Hc as [ -> | -> ].
      * rewrite <- Z.bit0_mod.
        replace (0 <? 2 * Z.of_nat (S w)) with true by (symmetry; apply Z.ltb_lt; lia).
        change (0 mod 2 =? 0) with true. change (0 / 2) with 0.
        now destruct (Z.testbit x 0).
      * rewrite <- Z.bit0_mod. change (1 mod 2 =? 0) with false.
        rewrite andb_false_r. now destruct (Z.testbit x 0).
    + rewrite IH by lia.
      replace ((n - 2) mod 2) with (n mod 2) by divmod.
      replace (Z.testbit (x / 2) ((n - 2) / 2)) with (Z.testbit x (n / 2)).
      * f_equal. f_equal.
        destruct (Z.ltb_spec (n - 2) (2 * Z.of_nat w)),
                 (Z.ltb_spec n (2 * Z.of_nat (S w))); auto; lia.
      * change (x / 2) with (x / 2 ^ 1).
        rewrite Z.div_pow2_bits by (try lia; divmod). f_equal. divmod.
Qed.

(** Adding two spread numbers over the mask, with a carry [c]: the carries
    run through the bits the mask fills and the sum comes out spread. *)
Lemma spread_add (w : nat) (x1 x2 c : Z) :
  0 <= x1 < 2 ^ Z.of_nat w -> 0 <= x2 < 2 ^ Z.of_nat w -> 0 <= c <= 1 ->
  Z.land (spread w x1 + spread w x2 + 2 * odd_mask w + c) (odd_mask w) =
  spread w ((x1 + x2 + c) mod 2 ^ Z.of_nat w).
Proof.
  revert x1 x2 c. induction w as [|w IH]; intros x1 x2 c H1 H2 Hc.
  - cbn [spread odd_mask]. apply Z.land_0_r.
  - cbn [spread odd_mask].
    rewrite Nat2Z.inj_succ, Z.pow_succ_r in H1, H2 by lia.
    rewrite Nat2Z.inj_succ, Z.pow_succ_r by lia.
    set (M := 2 ^ Z.of_nat w) in *.
    assert (HM : 0 < M) by (apply Z.pow_pos_nonneg; lia).
    set (v := x1 mod 2 + x2 mod 2 + c).
    assert (Hv : 0 <= v <= 3) by (unfold v; divmod).
    set (T := x1 / 2 + x2 / 2 + v / 2).
    replace (4 * spread w (x1 / 2) + x1 mod 2 + (4 * spread w (x2 / 2) + x2 mod 2)
             + 2 * (4 * odd_mask w + 1) + c)
      with (4 * (spread w (x1 / 2) + spread w (x2 / 2) + 2 * odd_mask w + v / 2)
            + (v + 2) mod 4) by (unfold v; divmod).
    rewrite land_4_1 by divmod.
    rewrite IH by (try divmod; unfold M in *; divmod).
    fold T.
    assert (E : x1 + x2 + c = 2 * T + v mod 2) by (unfold T, v; divmod).
    rewrite E, Z.rem_mul_r by lia.
    replace ((2 * T + v mod 2) mod 2) with (v mod 2) by divmod.
    replace ((2 * T + v mod 2) / 2) with T by divmod.
    fold M. generalize (T mod M). intros Tm.
    replace ((v mod 2 + 2 * Tm) / 2) with Tm by divmod.
    replace ((v mod 2 + 2 * Tm) mod 2) with (v mod 2) by divmod.
    replace (((v + 2) mod 4) mod 2) with (v mod 2) by divmod.
    reflexivity.
Qed.

Lemma odd_mask_16 :
  odd_mask 16 = ZCurve.ODDBITS /\ 2 * odd_mask 16 = ZCurve.EVENBITS.
Proof. split; reflexivity. Qed.

Lemma spread_double_bit (w : nat) (y n : Z) :
  0 <= n ->
  Z.testbit (2 * spread w y) n =
  (n <? 2 * Z.of_nat w + 1) && negb (n mod 2 =? 0) && Z.testbit y (n / 2).
Proof.
  intros Hn. rewrite Z.double_bits.
  destruct (Z.eq_dec n 0) as [->|Hne].
  - rewrite Z.testbit_neg_r by lia. change (0 mod 2 =? 0) with true.
    now rewrite andb_false_r.
  - rewrite spread_testbit by lia.
    replace (Z.pred n / 2) with (if n mod 2 =? 0 then n / 2 - 1 else n / 2)
      by (destruct (Z.eqb_spec (n mod 2) 0); divmod).
    replace (Z.pred n mod 2 =? 0) with (negb (n mod 2 =? 0))
      by (destruct (Z.eqb_spec (n mod 2) 0), (Z.eqb_spec (Z.pred n mod 2) 0);
          auto; divmod).
    replace (Z.pred n <? 2 * Z.of_nat w) with (n <? 2 * Z.of_nat w + 1)
      by (destruct (Z.ltb_spec (Z.pred n) (2 * Z.of_nat w)),
                   (Z.ltb_spec n (2 * Z.of_nat w + 1)); auto; lia).
    destruct (n mod 2 =? 0); [now rewrite !andb_false_r|reflexivity].
Qed.

(** The two axis parts of a position, in terms of the coordinates. *)
Lemma position_parts (c : ZCurve.t) :
  Z.land (ZCurve.z c) ZCurve.ODDBITS = spread 16 (fst (ZCurve.xy c)) /\
  Z.land (ZCurve.z c) ZCurve.EVENBITS = 2 * spread 16 (snd (ZCurve.xy c)).
Proof.
  assert (B : forall n, 0 <= n -> 0 <= n / 2) by (intros; apply Z.div_pos; lia).
  split; apply Z.bits_inj'; intros n Hn; rewrite Z.land_spec.
  - destruct (mask_bits n Hn) as [-> _]. rewrite spread_testbit by lia.
    destruct (xy_testbit c (n / 2) (B n Hn)) as [-> _].
    change (2 * Z.of_nat 16) with 32.
    destruct (Z.eqb_spec (n mod 2) 0) as [E|E]; [|now rewrite !andb_false_r].
    replace (2 * (n / 2)) with n by divmod.
    destruct (Z.ltb_spec n 32); [|now rewrite !andb_false_r].
    replace (n / 2 <? 16) with true by (symmetry; apply Z.ltb_lt; divmod).
    cbn. now rewrite andb_true_r.
  - destruct (mask_bits n Hn) as [_ ->]. rewrite spread_double_bit by lia.
    destruct (xy_testbit c (n / 2) (B n Hn)) as [_ ->].
    change (2 * Z.of_nat 16 + 1) with 33.
    destruct (Z.eqb_spec (n mod 2) 0) as [E|E]; [now rewrite !andb_false_r|].
    replace (2 * (n / 2) + 1) with n by divmod.
    destruct (Z.ltb_spec n 32).
    + replace (n <? 33) with true by (symmetry; apply Z.ltb_lt; lia).
      replace (n / 2 <? 16) with true by (symmetry; apply Z.ltb_lt; divmod).
      cbn. now rewrite andb_true_r.
    + replace (n / 2 <? 16) with false by (symmetry; apply Z.ltb_ge; divmod).
      cbn. now rewrite !andb_false_r.
Qed.

Lemma x_axis_add (x1 x2 c : Z) :
  0 <= x1 < 2 ^ 16 -> 0 <= x2 < 2 ^ 16 -> 0 <= c <= 1 ->
  Z.land (spread 16 x1 + spread 16 x2 + ZCurve.EVENBITS + c) ZCurve.ODDBITS =
  spread 16 ((x1 + x2 + c) mod 2 ^ 16).
Proof.
  intros H1 H2 Hc. destruct odd_mask_16 as [<- <-].
  apply (spread_add 16 x1 x2 c); assumption.
Qed.

Lemma y_axis_add (y1 y2 c : Z) :
  0 <= y1 < 2 ^ 16 -> 0 <= y2 < 2 ^ 16 -> 0 <= c <= 1 ->
  Z.land (2 * spread 16 y1 + 2 * spread 16 y2 + ZCurve.ODDBITS + c) ZCurve.EVENBITS =
  2 * spread 16 ((y1 + y2 + c) mod 2 ^ 16).
Proof.
  intros H1 H2 Hc. rewrite <- x_axis_add by assumption.
  set (t := spread 16 y1 + spread 16 y2).
  change ZCurve.EVENBITS with (2 * ZCurve.ODDBITS) at 1.
  assert (E : Z.land (t + 715827882 + c) ZCurve.ODDBITS =
              Z.land (t + ZCurve.EVENBITS + c) ZCurve.ODDBITS).
  { rewrite (land_low (t + 715827882 + c) ZCurve.ODDBITS 31)
      by (try lia; vm_compute; split; congruence).
    rewrite (land_low (t + ZCurve.EVENBITS + c) ZCurve.ODDBITS 31)
      by (try lia; vm_compute; split; congruence).
    f_equal. change ZCurve.EVENBITS with (715827882 + 1 * 2 ^ 31).
    replace (t + (715827882 + 1 * 2 ^ 31) + c)
      with (t + 715827882 + c + 1 * 2 ^ 31) by lia.
    symmetry. apply Z.mod_add. lia. }
  fold t. rewrite <- E.
  assert (Hc' : c = 0 \/ c = 1) by lia. destruct Hc' as [ -> | -> ].
  - replace (2 * spread 16 y1 + 2 * spread 16 y2 + ZCurve.ODDBITS + 0)
      with (2 * (t + 715827882 + 0) + 1)
      by (unfold t; change ZCurve.ODDBITS with 1431655765; lia).
    apply land_double_succ.
  - replace (2 * spread 16 y1 + 2 * spread 16 y2 + ZCurve.ODDBITS + 1)
      with (2 * (t + 715827882 + 1))
      by (unfold t; change ZCurve.ODDBITS with 1431655765; lia).
    apply land_double.
Qed.

Lemma axis_incr (K L : Z) (a : Z) :
  Z.land K L = 0 -> Z.lor K L = Z.ones 32 ->
  Z.land (Z.lor a K + 1) L = Z.land (Z.land a L + K + 1) L.
Proof.
  intros D C.
  rewrite (axis_low K L C (Z.lor a K + 1)).
  rewrite (axis_low K L C (Z.land a L + K + 1)).
  f_equal.
  pose proof (Z.add_lor_land a K) as H1.
  pose proof (axis_split K L D C a) as H2.
  pose proof (Z.div_mod a (2 ^ 32) ltac:(lia)) as H3.
  replace (Z.lor a K + 1)
    with (Z.land a L + K + 1 + (a / 2 ^ 32) * 2 ^ 32) by lia.
  apply Z.mod_add. lia.
Qed.

Lemma mod_pow2_mod_pow2 (a : Z) (d : nat) :
  (d <= 16)%nat -> (a mod 2 ^ 16) mod 2 ^ Z.of_nat d = a mod 2 ^ Z.of_nat d.
Proof.
  intros Hd. apply Z.bits_inj'. intros n Hn.
  rewrite !Z.testbit_mod_pow2 by lia.
  destruct (Z.ltb_spec n (Z.of_nat d)); [|reflexivity].
  now replace (n <? 16) with true by (symmetry; apply Z.ltb_lt; lia).
Qed.

(** The coordinates of a position given by its two spread parts. *)
Lemma xy_of_parts (X Y : Z) (d : nat) (hs : bool) :
  0 <= X < 2 ^ 16 -> 0 <= Y < 2 ^ 16 -> (d <= 16)%nat ->
  ZCurve.xy (ZCurve.Build ((Z.lor (spread 16 X) (2 * spread 16 Y)) mod 4 ^ Z.of_nat d)
                          d hs) =
  (X mod 2 ^ Z.of_nat d, Y mod 2 ^ Z.of_nat d).
Proof.
  intros HX HY Hd. rewrite (surjective_pairing (ZCurve.xy _)). rewrite pow4_pow2.
  f_equal; apply Z.bits_inj'; intros n Hn.
  - destruct (xy_testbit (ZCurve.Build
                (Z.lor (spread 16 X) (2 * spread 16 Y) mod 2 ^ (2 * Z.of_nat d)) d hs)
                n Hn) as [-> _].
    cbn [ZCurve.z].
    rewrite !Z.testbit_mod_pow2, Z.lor_spec, spread_testbit, spread_double_bit by lia.
    replace (2 * n mod 2) with 0 by divmod. replace (2 * n / 2) with n by divmod.
    change (0 =? 0) with true. cbn [negb]. rewrite andb_false_r, orb_false_r.
    change (2 * Z.of_nat 16) with 32.
    destruct (Z.ltb_spec n (Z.of_nat d)).
    + replace (n <? 16) with true by (symmetry; apply Z.ltb_lt; lia).
      replace (2 * n <? 2 * Z.of_nat d) with true by (symmetry; apply Z.ltb_lt; lia).
      replace (2 * n <? 32) with true by (symmetry; apply Z.ltb_lt; lia).
      reflexivity.
    + replace (2 * n <? 2 * Z.of_nat d) with false by (symmetry; apply Z.ltb_ge; lia).
      now rewrite andb_false_r.
  - destruct (xy_testbit (ZCurve.Build
                (Z.lor (spread 16 X) (2 * spread 16 Y) mod 2 ^ (2 * Z.of_nat d)) d hs)
                n Hn) as [_ ->].
    cbn [ZCurve.z].
    rewrite !Z.testbit_mod_pow2, Z.lor_spec, spread_testbit, spread_double_bit by lia.
    replace ((2 * n + 1) mod 2) with 1 by divmod.
    replace ((2 * n + 1) / 2) with n by divmod.
    change (1 =? 0) with false. cbn [negb]. rewrite andb_false_r. cbn [orb].
    change (2 * Z.of_nat 16 + 1) with 33.
    destruct (Z.ltb_spec n (Z.of_nat d)).
    + replace (n <? 16) with true by (symmetry; apply Z.ltb_lt; lia).
      replace (2 * n + 1 <? 2 * Z.of_nat d) with true by (symmetry; apply Z.ltb_lt; lia).
      replace (2 * n + 1 <? 33) with true by (symmetry; apply Z.ltb_lt; lia).
      reflexivity.
    + replace (2 * n + 1 <? 2 * Z.of_nat d) with false
        by (symmetry; apply Z.ltb_ge; lia).
      now rewrite andb_false_r.
Qed.

Lemma add_same_depth_xy (a b : ZCurve.t) :
  (ZCurve.depth a <= 16)%nat ->
  ZCurve.add_same_depth a b =
  Ok (ZCurve.Build
        ((Z.lor (spread 16 ((fst (ZCurve.xy a) + fst (ZCurve.xy b)) mod 2 ^ 16))
                (2 * spread 16 ((snd (ZCurve.xy a) + snd (ZCurve.xy b)) mod 2 ^ 16)))
         mod 4 ^ Z.of_nat (ZCurve.depth a))
        (ZCurve.depth a) false).
Proof.
  intros Hd. unfold ZCurve.add_same_depth. rewrite init_mod. do 3 f_equal.
  destruct (xy_bounds a) as [[Bxa Bya] _]. destruct (xy_bounds b) as [[Bxb Byb] _].
  destruct (position_parts a) as [Pa Qa]. destruct (position_parts b) as [Pb Qb].
  f_equal.
  - rewrite (axis_sum _ _ EVEN_ODD_disjoint EVEN_ODD_cover), Pa, Pb.
    rewrite <- (Z.add_0_r (spread 16 _ + spread 16 _ + ZCurve.EVENBITS)).
    rewrite x_axis_add by lia. now rewrite Z.add_0_r.
  - rewrite (axis_sum _ _ ODD_EVEN_disjoint ODD_EVEN_cover), Qa, Qb.
    rewrite <- (Z.add_0_r (2 * spread 16 _ + 2 * spread 16 _ + ZCurve.ODDBITS)).
    rewrite y_axis_add by lia. now rewrite Z.add_0_r.
Qed.

(** Addition is coordinate-wise: for two cells of the same depth
    [d <= 16], the sum has depth [d] and the coordinates
    [((x1 + x2) mod 2^d, (y1 + y2) mod 2^d)]. *)
Theorem add_xy (a b : ZCurve.t) :
  ZCurve.depth a = ZCurve.depth b -> (ZCurve.depth a <= 16)%nat ->
  exists r, ZCurve.add a b = Ok r /\
            ZCurve.depth r = ZCurve.depth a /\
            ZCurve.xy r =
            ((fst (ZCurve.xy a) + fst (ZCurve.xy b)) mod 2 ^ Z.of_nat (ZCurve.depth a),
             (snd (ZCurve.xy a) + snd (ZCurve.xy b)) mod 2 ^ Z.of_nat (ZCurve.depth a)).
Proof.
  intros He Hd. rewrite add_unfold, He, Nat.eqb_refl, <- He.
  rewrite add_same_depth_xy by exact Hd. eexists. split; [reflexivity|].
  split; [reflexivity|].
  rewrite xy_of_parts
    by (try exact Hd; apply Z.mod_pos_bound; lia).
  now rewrite !mod_pow2_mod_pow2 by exact Hd.
Qed.

Lemma add_xy_witness :
  exists r, ZCurve.add (ZCurve.Build 6 2 false) (ZCurve.Build 11 2 false) = Ok r /\
            ZCurve.depth r = ZCurve.depth (ZCurve.Build 6 2 false) /\
            ZCurve.xy r =
            ((fst (ZCurve.xy (ZCurve.Build 6 2 false))
              + fst (ZCurve.xy (ZCurve.Build 11 2 false)))
             mod 2 ^ Z.of_nat (ZCurve.depth (ZCurve.Build 6 2 false)),
             (snd (ZCurve.xy (ZCurve.Build 6 2 false))
              + snd (ZCurve.xy (ZCurve.Build 11 2 false)))
             mod 2 ^ Z.of_nat (ZCurve.depth (ZCurve.Build 6 2 false))).
Proof.
  apply (add_xy (ZCurve.Build 6 2 false) (ZCurve.Build 11 2 false)).
  - reflexivity.
  - cbn. lia.
Defined.

(** Two cells of the same depth [d <= 16] without flag that are both
    well-formed and have the same coordinates are the same cell. *)
Lemma xy_injective (r s : ZCurve.t) :
  well_formed r -> well_formed s ->
  ZCurve.depth r = ZCurve.depth s -> (ZCurve.depth r <= 16)%nat ->
  ZCurve.halfsplit r = ZCurve.halfsplit s ->
  ZCurve.xy r = ZCurve.xy s -> r = s.
Proof.
  intros Wr Ws Hd H16 Hh Hxy.
  pose proof (xy_fromXY_roundtrip r Wr H16) as Er.
  pose proof (xy_fromXY_roundtrip s Ws ltac:(lia)) as Es.
  rewrite Hxy, Hd, Es in Er. injection Er as Ez.
  destruct r, s. cbn in *. congruence.
Qed.

Lemma add_same_depth_result (a b : ZCurve.t) (r : ZCurve.t) :
  ZCurve.depth a = ZCurve.depth b -> ZCurve.add a b = Ok r ->
  ZCurve.depth r = ZCurve.depth a /\ ZCurve.halfsplit r = false /\ well_formed r.
Proof.
  intros He H. rewrite add_unfold, He, Nat.eqb_refl in H.
  destruct (add_same_depth_ok a b) as [r' [H1 [H2 [H3 H4]]]].
  rewrite H1 in H. injection H as <-. auto.
Qed.

(** Addition is associative on cells of the same depth [d <= 16]. *)
Theorem add_associative (a b c : ZCurve.t) :
  ZCurve.depth a = ZCurve.depth b -> ZCurve.depth b = ZCurve.depth c ->
  (ZCurve.depth a <= 16)%nat ->
  exists ab bc r,
    ZCurve.add a b = Ok ab /\ ZCurve.add b c = Ok bc /\
    ZCurve.add ab c = Ok r /\ ZCurve.add a bc = Ok r.
Proof.
  intros Hab Hbc Hd.
  destruct (add_xy a b Hab Hd) as [ab [Eab [Dab Xab]]].
  destruct (add_xy b c Hbc ltac:(lia)) as [bc [Ebc [Dbc Xbc]]].
  destruct (add_xy ab c ltac:(lia) ltac:(lia)) as [r [Er [Dr Xr]]].
  destruct (add_xy a bc ltac:(lia) Hd) as [s [Es [Ds Xs]]].
  exists ab, bc, r. repeat split; try assumption.
  rewrite Es. f_equal.
  destruct (add_same_depth_result ab c r ltac:(lia) Er) as [_ [Hr Wr]].
  destruct (add_same_depth_result a bc s ltac:(lia) Es) as [_ [Hs Ws]].
  apply xy_injective; try assumption; try lia; try congruence.
  rewrite Xr, Xs, Xab, Xbc. cbn [fst snd]. rewrite Dab, <- Hab.
  f_equal.
  - rewrite Z.add_mod_idemp_l, Z.add_mod_idemp_r
      by (apply Z.pow_nonzero; lia).
    f_equal. lia.
  - rewrite Z.add_mod_idemp_l, Z.add_mod_idemp_r
      by (apply Z.pow_nonzero; lia).
    f_equal. lia.
Qed.

Lemma add_associative_witness :
  exists ab bc r,
    ZCurve.add (ZCurve.Build 6 2 false) (ZCurve.Build 11 2 true) = Ok ab /\
    ZCurve.add (ZCurve.Build 11 2 true) (ZCurve.Build 13 2 false) = Ok bc /\
    ZCurve.add ab (ZCurve.Build 13 2 false) = Ok r /\
    ZCurve.add (ZCurve.Build 6 2 false) bc = Ok r.
Proof.
  apply (add_associative (ZCurve.Build 6 2 false) (ZCurve.Build 11 2 true)
           (ZCurve.Build 13 2 false)).
  - reflexivity.
  - reflexivity.
  - cbn. lia.
Defined.

(** The cell at position 0, at the same depth or at any lesser depth, is
    neutral on both sides for a well-formed cell without flag of depth at
    most 16. *)
Theorem add_zero (c : ZCurve.t) (k : nat) (hs : bool) :
  well_formed c -> ZCurve.halfsplit c = false ->
  (ZCurve.depth c <= 16)%nat -> (k <= ZCurve.depth c)%nat ->
  ZCurve.add c (ZCurve.Build 0 k hs) = Ok c /\
  ZCurve.add (ZCurve.Build 0 k hs) c = Ok c.
Proof.
  intros Hw Hh Hd Hk.
  assert (Z0 : ZCurve.add_same_depth c (ZCurve.Build 0 (ZCurve.depth c) false) = Ok c).
  { rewrite add_same_depth_xy by exact Hd.
    destruct (xy_bounds c) as [B16 B]. specialize (B Hw).
    assert (E0 : ZCurve.xy (ZCurve.Build 0 (ZCurve.depth c) false) = (0, 0))
      by (vm_compute; reflexivity).
    rewrite E0. cbn [fst snd]. rewrite !Z.add_0_r.
    rewrite (Z.mod_small (fst (ZCurve.xy c)) (2 ^ 16)),
      (Z.mod_small (snd (ZCurve.xy c)) (2 ^ 16)) by lia.
    f_equal.
    apply xy_injective; cbn [ZCurve.depth ZCurve.halfsplit]; auto.
    - unfold well_formed. cbn. apply Z.mod_pos_bound, pow4_pos.
    - rewrite xy_of_parts by (try lia; exact Hd).
      rewrite !Z.mod_small by lia. symmetry. apply surjective_pairing. }
  assert (Z1 : ZCurve.add_same_depth (ZCurve.Build 0 (ZCurve.depth c) false) c = Ok c).
  { rewrite add_same_depth_comm by reflexivity. exact Z0. }
  destruct (Nat.eq_dec k (ZCurve.depth c)) as [->|Hne].
  - rewrite !add_unfold. cbn [ZCurve.depth]. rewrite Nat.eqb_refl.
    split; [exact Z0|exact Z1].
  - assert (C0 : constructed (ZCurve.Build 0 k hs))
      by (unfold constructed; cbn; pose proof (pow4_pos k); lia).
    split.
    + rewrite add_diff_ok; cbn [ZCurve.depth]; try lia.
      * unfold deeper, higher. cbn [ZCurve.depth ZCurve.z].
        replace (ZCurve.depth c <? k)%nat with false
          by (symmetry; apply Nat.ltb_ge; lia).
        cbn [ZCurve.z ZCurve.depth]. rewrite Z.shiftl_0_l. exact Z0.
      * unfold higher. cbn [ZCurve.depth].
        replace (ZCurve.depth c <? k)%nat with false
          by (symmetry; apply Nat.ltb_ge; lia).
        exact C0.
    + rewrite add_diff_ok; cbn [ZCurve.depth]; try lia.
      * unfold deeper, higher. cbn [ZCurve.depth ZCurve.z].
        replace (k <? ZCurve.depth c)%nat with true
          by (symmetry; apply Nat.ltb_lt; lia).
        cbn [ZCurve.z ZCurve.depth]. rewrite Z.shiftl_0_l. exact Z0.
      * unfold higher. cbn [ZCurve.depth].
        replace (k <? ZCurve.depth c)%nat with true
          by (symmetry; apply Nat.ltb_lt; lia).
        exact C0.
Qed.

Lemma add_zero_witness :
  ZCurve.add (ZCurve.Build 27 3 false) (ZCurve.Build 0 1 true) =
    Ok (ZCurve.Build 27 3 false) /\
  ZCurve.add (ZCurve.Build 0 1 true) (ZCurve.Build 27 3 false) =
    Ok (ZCurve.Build 27 3 false).
Proof.
  apply (add_zero (ZCurve.Build 27 3 false) 1 true).
  - unfold well_formed. cbn. lia.
  - reflexivity.
  - cbn. lia.
  - cbn. lia.
Defined.

Lemma spread_0 (w : nat) : spread w 0 = 0.
Proof.
  induction w as [|w IH]; cbn [spread]; [reflexivity|].
  change (0 / 2) with 0. now rewrite IH.
Qed.

Lemma step_east_xy (c : ZCurve.t) (hs : bool) :
  (ZCurve.depth c <= 16)%nat ->
  ZCurve.xy (ZCurve.Build (step EAST (ZCurve.z c) (ZCurve.depth c)) (ZCurve.depth c) hs) =
  ((fst (ZCurve.xy c) + 1) mod 2 ^ Z.of_nat (ZCurve.depth c),
   snd (ZCurve.xy c) mod 2 ^ Z.of_nat (ZCurve.depth c)).
Proof.
  intros Hd. cbn [step]. unfold step_up.
  destruct (xy_bounds c) as [[Bx By] _]. destruct (position_parts c) as [P Q].
  rewrite (axis_incr _ _ _ EVEN_ODD_disjoint EVEN_ODD_cover), P, Q.
  replace (spread 16 (fst (ZCurve.xy c)) + ZCurve.EVENBITS + 1)
    with (spread 16 (fst (ZCurve.xy c)) + spread 16 0 + ZCurve.EVENBITS + 1)
    by (rewrite spread_0; lia).
  rewrite x_axis_add by lia. rewrite Z.add_0_r.
  rewrite xy_of_parts by (try exact Hd; try lia; apply Z.mod_pos_bound; lia).
  now rewrite mod_pow2_mod_pow2 by exact Hd.
Qed.

Lemma step_south_xy (c : ZCurve.t) (hs : bool) :
  (ZCurve.depth c <= 16)%nat ->
  ZCurve.xy (ZCurve.Build (step SOUTH (ZCurve.z c) (ZCurve.depth c)) (ZCurve.depth c) hs) =
  (fst (ZCurve.xy c) mod 2 ^ Z.of_nat (ZCurve.depth c),
   (snd (ZCurve.xy c) + 1) mod 2 ^ Z.of_nat (ZCurve.depth c)).
Proof.
  intros Hd. cbn [step]. unfold step_up.
  destruct (xy_bounds c) as [[Bx By] _]. destruct (position_parts c) as [P Q].
  rewrite (axis_incr _ _ _ ODD_EVEN_disjoint ODD_EVEN_cover), P, Q.
  replace (2 * spread 16 (snd (ZCurve.xy c)) + ZCurve.ODDBITS + 1)
    with (2 * spread 16 (snd (ZCurve.xy c)) + 2 * spread 16 0 + ZCurve.ODDBITS + 1)
    by (rewrite spread_0; lia).
  rewrite y_axis_add by lia. rewrite Z.add_0_r, Z.lor_comm.
  rewrite xy_of_parts by (try exact Hd; try lia; apply Z.mod_pos_bound; lia).
  now rewrite mod_pow2_mod_pow2 by exact Hd.
Qed.

Lemma step_bound (dir : D) (z0 : Z) (d : nat) : 0 <= step dir z0 d < 4 ^ Z.of_nat d.
Proof.
  destruct dir; cbn [step]; unfold step_down, step_up;
    apply Z.mod_pos_bound, pow4_pos.
Qed.

Lemma pred_of_succ_mod (x x' M : Z) :
  0 < M -> 0 <= x' < M -> x = (x' + 1) mod M -> x' = (x - 1) mod M.
Proof.
  intros HM Hx' ->. rewrite Zminus_mod_idemp_l.
  replace (x' + 1 - 1) with x' by lia. symmetry. now apply Z.mod_small.
Qed.

Lemma xy_same_position (a b : ZCurve.t) :
  ZCurve.z a = ZCurve.z b -> ZCurve.xy a = ZCurve.xy b.
Proof. intros H. unfold ZCurve.xy. now rewrite H. Qed.

Lemma west_from_east (c w : ZCurve.t) :
  well_formed w -> ZCurve.depth w = ZCurve.depth c -> (ZCurve.depth c <= 16)%nat ->
  step EAST (ZCurve.z w) (ZCurve.depth w) = ZCurve.z c ->
  ZCurve.xy w =
  ((fst (ZCurve.xy c) - 1) mod 2 ^ Z.of_nat (ZCurve.depth c), snd (ZCurve.xy c)).
Proof.
  intros Ww Hd H16 Hs.
  destruct (xy_bounds w) as [_ Bw]. specialize (Bw Ww).
  pose proof (step_east_xy w false ltac:(lia)) as E. rewrite Hs in E.
  rewrite (xy_same_position (ZCurve.Build (ZCurve.z c) (ZCurve.depth w) false) c)
    in E by reflexivity.
  rewrite Hd in E, Bw.
  assert (HM : 0 < 2 ^ Z.of_nat (ZCurve.depth c)) by (apply Z.pow_pos_nonneg; lia).
  revert E Bw. generalize (ZCurve.xy w) (ZCurve.xy c). intros [xw yw] [xc yc].
  unfold fst, snd. intros E [Bx By]. injection E as Ex Ey.
  rewrite Z.mod_small in Ey by exact By. subst yc. f_equal.
  now apply pred_of_succ_mod.
Qed.

Lemma north_from_south (c w : ZCurve.t) :
  well_formed w -> ZCurve.depth w = ZCurve.depth c -> (ZCurve.depth c <= 16)%nat ->
  step SOUTH (ZCurve.z w) (ZCurve.depth w) = ZCurve.z c ->
  ZCurve.xy w =
  (fst (ZCurve.xy c), (snd (ZCurve.xy c) - 1) mod 2 ^ Z.of_nat (ZCurve.depth c)).
Proof.
  intros Ww Hd H16 Hs.
  destruct (xy_bounds w) as [_ Bw]. specialize (Bw Ww).
  pose proof (step_south_xy w false ltac:(lia)) as E. rewrite Hs in E.
  rewrite (xy_same_position (ZCurve.Build (ZCurve.z c) (ZCurve.depth w) false) c)
    in E by reflexivity.
  rewrite Hd in E, Bw.
  assert (HM : 0 < 2 ^ Z.of_nat (ZCurve.depth c)) by (apply Z.pow_pos_nonneg; lia).
  revert E Bw. generalize (ZCurve.xy w) (ZCurve.xy c). intros [xw yw] [xc yc].
  unfold fst, snd. intros E [Bx By]. injection E as Ex Ey.
  rewrite Z.mod_small in Ex by exact Bx. subst xc. f_equal.
  now apply pred_of_succ_mod.
Qed.

(** The neighbours in grid coordinates: on a well-formed cell of depth
    [d <= 16] with coordinates [(x, y)], EAST and WEST are at
    [x + 1] and [x - 1] modulo [2^d] with the same [y], SOUTH and NORTH at
    [y + 1] and [y - 1] modulo [2^d] with the same [x]. *)
Theorem neighbours_xy (c : ZCurve.t) :
  well_formed c -> (ZCurve.depth c <= 16)%nat ->
  exists f,
    ZCurve.neighbours c = Ok f /\
    ZCurve.xy (f EAST) =
      ((fst (ZCurve.xy c) + 1) mod 2 ^ Z.of_nat (ZCurve.depth c), snd (ZCurve.xy c)) /\
    ZCurve.xy (f WEST) =
      ((fst (ZCurve.xy c) - 1) mod 2 ^ Z.of_nat (ZCurve.depth c), snd (ZCurve.xy c)) /\
    ZCurve.xy (f SOUTH) =
      (fst (ZCurve.xy c), (snd (ZCurve.xy c) + 1) mod 2 ^ Z.of_nat (ZCurve.depth c)) /\
    ZCurve.xy (f NORTH) =
      (fst (ZCurve.xy c), (snd (ZCurve.xy c) - 1) mod 2 ^ Z.of_nat (ZCurve.depth c)).
Proof.
  intros Hw Hd. destruct (neighbours_step c) as [f [Hf Ef]].
  exists f. split; [exact Hf|].
  destruct (xy_bounds c) as [_ B]. specialize (B Hw).
  split; [|split; [|split]]; rewrite Ef.
  - rewrite step_east_xy by exact Hd. f_equal. apply Z.mod_small, B.
  - apply west_from_east; cbn [ZCurve.z ZCurve.depth]; auto.
    + unfold well_formed. cbn [ZCurve.z ZCurve.depth]. apply step_bound.
    + apply (step_opposite WEST); [exact Hd|apply Hw].
  - rewrite step_south_xy by exact Hd. f_equal. apply Z.mod_small, B.
  - apply north_from_south; cbn [ZCurve.z ZCurve.depth]; auto.
    + unfold well_formed. cbn [ZCurve.z ZCurve.depth]. apply step_bound.
    + apply (step_opposite NORTH); [exact Hd|apply Hw].
Qed.

Lemma neighbours_xy_witness :
  exists f,
    ZCurve.neighbours (ZCurve.Build 5 2 false) = Ok f /\
    ZCurve.xy (f EAST) =
      ((fst (ZCurve.xy (ZCurve.Build 5 2 false)) + 1) mod 2 ^ Z.of_nat 2,
       snd (ZCurve.xy (ZCurve.Build 5 2 false))) /\
    ZCurve.xy (f WEST) =
      ((fst (ZCurve.xy (ZCurve.Build 5 2 false)) - 1) mod 2 ^ Z.of_nat 2,
       snd (ZCurve.xy (ZCurve.Build 5 2 false))) /\
    ZCurve.xy (f SOUTH) =
      (fst (ZCurve.xy (ZCurve.Build 5 2 false)),
       (snd (ZCurve.xy (ZCurve.Build 5 2 false)) + 1) mod 2 ^ Z.of_nat 2) /\
    ZCurve.xy (f NORTH) =
      (fst (ZCurve.xy (ZCurve.Build 5 2 false)),
       (snd (ZCurve.xy (ZCurve.Build 5 2 false)) - 1) mod 2 ^ Z.of_nat 2).
Proof.
  apply (neighbours_xy (ZCurve.Build 5 2 false)).
  - unfold well_formed. cbn. lia.
  - cbn. lia.
Defined.

Lemma xy_shiftl (c : ZCurve.t) (k d' : nat) (hs : bool) :
  well_formed c -> (ZCurve.depth c + k <= 16)%nat ->
  ZCurve.xy (ZCurve.Build (Z.shiftl (ZCurve.z c) (2 * Z.of_nat k)) d' hs) =
  (fst (ZCurve.xy c) * 2 ^ Z.of_nat k, snd (ZCurve.xy c) * 2 ^ Z.of_nat k).
Proof.
  intros Hw Hd. rewrite (surjective_pairing (ZCurve.xy _)).
  f_equal; apply Z.bits_inj'; intros n Hn; rewrite Z.mul_pow2_bits by lia.
  - destruct (xy_testbit (ZCurve.Build (Z.shiftl (ZCurve.z c) (2 * Z.of_nat k)) d' hs)
                n Hn) as [-> _].
    cbn [ZCurve.z]. rewrite Z.shiftl_spec by lia.
    destruct (Z.ltb_spec n (Z.of_nat k)) as [L|L].
    + rewrite !Z.testbit_neg_r by lia. apply andb_false_r.
    + destruct (xy_testbit c (n - Z.of_nat k) ltac:(lia)) as [-> _].
      replace (2 * n - 2 * Z.of_nat k) with (2 * (n - Z.of_nat k)) by lia.
      destruct (Z.testbit (ZCurve.z c) (2 * (n - Z.of_nat k))) eqn:E;
        [|now rewrite !andb_false_r].
      pose proof (low_bits _ _ _ Hw E).
      replace (n <? 16) with true by (symmetry; apply Z.ltb_lt; lia).
      now replace (n - Z.of_nat k <? 16) with true by (symmetry; apply Z.ltb_lt; lia).
  - destruct (xy_testbit (ZCurve.Build (Z.shiftl (ZCurve.z c) (2 * Z.of_nat k)) d' hs)
                n Hn) as [_ ->].
    cbn [ZCurve.z]. rewrite Z.shiftl_spec by lia.
    destruct (Z.ltb_spec n (Z.of_nat k)) as [L|L].
    + rewrite !Z.testbit_neg_r by lia. apply andb_false_r.
    + destruct (xy_testbit c (n - Z.of_nat k) ltac:(lia)) as [_ ->].
      replace (2 * n + 1 - 2 * Z.of_nat k) with (2 * (n - Z.of_nat k) + 1) by lia.
      destruct (Z.testbit (ZCurve.z c) (2 * (n - Z.of_nat k) + 1)) eqn:E;
        [|now rewrite !andb_false_r].
      pose proof (low_bits _ _ _ Hw E).
      replace (n <? 16) with true by (symmetry; apply Z.ltb_lt; lia).
      now replace (n - Z.of_nat k <? 16) with true by (symmetry; apply Z.ltb_lt; lia).
Qed.

(** Addition at different depths in grid coordinates: with both operands
    well-formed and the greater depth [D <= 16], the coordinates of the
    shallower operand are scaled by [2^(D - its depth)] and added to those
    of the deeper one modulo [2^D]; the sum has depth [D]. *)
Theorem add_mixed_xy (a b : ZCurve.t) :
  well_formed a -> well_formed b -> ZCurve.depth a <> ZCurve.depth b ->
  (ZCurve.depth (deeper a b) <= 16)%nat ->
  exists r,
    ZCurve.add a b = Ok r /\
    ZCurve.depth r = ZCurve.depth (deeper a b) /\
    ZCurve.xy r =
    ((fst (ZCurve.xy (deeper a b))
      + fst (ZCurve.xy (higher a b))
        * 2 ^ Z.of_nat (ZCurve.depth (deeper a b) - ZCurve.depth (higher a b)))
     mod 2 ^ Z.of_nat (ZCurve.depth (deeper a b)),
     (snd (ZCurve.xy (deeper a b))
      + snd (ZCurve.xy (higher a b))
        * 2 ^ Z.of_nat (ZCurve.depth (deeper a b) - ZCurve.depth (higher a b)))
     mod 2 ^ Z.of_nat (ZCurve.depth (deeper a b))).
Proof.
  intros Wa Wb Hne Hd.
  assert (Wh : well_formed (higher a b))
    by (unfold higher; now destruct (Nat.ltb _ _)).
  assert (Hne' : ZCurve.depth b <> ZCurve.depth a) by congruence.
  pose proof (deeper_higher_depth a b Hne') as Hlt.
  rewrite add_diff_ok by (auto; now apply well_formed_constructed).
  rewrite add_same_depth_xy by exact Hd.
  eexists. split; [reflexivity|]. split; [reflexivity|].
  rewrite xy_of_parts by (try exact Hd; apply Z.mod_pos_bound; lia).
  rewrite !mod_pow2_mod_pow2 by exact Hd.
  rewrite xy_shiftl by (auto; lia). reflexivity.
Qed.

Lemma add_mixed_xy_witness :
  exists r,
    ZCurve.add (ZCurve.Build 1 1 false) (ZCurve.Build 6 2 false) = Ok r /\
    ZCurve.depth r = ZCurve.depth (deeper (ZCurve.Build 1 1 false) (ZCurve.Build 6 2 false)) /\
    ZCurve.xy r =
    ((fst (ZCurve.xy (deeper (ZCurve.Build 1 1 false) (ZCurve.Build 6 2 false)))
      + fst (ZCurve.xy (higher (ZCurve.Build 1 1 false) (ZCurve.Build 6 2 false)))
        * 2 ^ Z.of_nat
                (ZCurve.depth (deeper (ZCurve.Build 1 1 false) (ZCurve.Build 6 2 false))
                 - ZCurve.depth (higher (ZCurve.Build 1 1 false) (ZCurve.Build 6 2 false))))
     mod 2 ^ Z.of_nat
               (ZCurve.depth (deeper (ZCurve.Build 1 1 false) (ZCurve.Build 6 2 false))),
     (snd (ZCurve.xy (deeper (ZCurve.Build 1 1 false) (ZCurve.Build 6 2 false)))
      + snd (ZCurve.xy (higher (ZCurve.Build 1 1 false) (ZCurve.Build 6 2 false)))
        * 2 ^ Z.of_nat
                (ZCurve.depth (deeper (ZCurve.Build 1 1 false) (ZCurve.Build 6 2 false))
                 - ZCurve.depth (higher (ZCurve.Build 1 1 false) (ZCurve.Build 6 2 false))))
     mod 2 ^ Z.of_nat
               (ZCurve.depth (deeper (ZCurve.Build 1 1 false) (ZCurve.Build 6 2 false)))).
Proof.
  apply (add_mixed_xy (ZCurve.Build 1 1 false) (ZCurve.Build 6 2 false)).
  - unfold well_formed. cbn. lia.
  - unfold well_formed. cbn. lia.
  - cbn. lia.
  - cbn. lia.
Defined.
